(** * A.T.L.A.S. core (atlas_core.py): a shallow embedding and its properties

    The pipeline of [src/atlas_core.py] is embedded function by function:
    every method of a component that holds [self.core] becomes a function
    that takes the core state and returns the new core state with its
    result.  Console output ([print]) goes to an external sink and is left
    out.  Four modelling conventions hold throughout the file.

    - Python [str] is Rocq's [string].  The case mapping and the white
      space class below are the ones Python applies to ASCII text, which is
      where every keyword table of the program lives; other bytes are
      neither letters nor white space.
    - Python [float] is the exact rational [Q]: the scalars [G_L] and
      [C_self], the risk table and the garden weights are compared and
      added without rounding.
    - [random.choice] takes its draw as an explicit argument [rnd].
    - The interpreter's limit on nested calls matters to the recursion of
      [GardenLayer.depth] only.  [Garden.depth] is the method with
      unbounded nesting; [Garden.depth_lim] takes the number of nested
      calls that the interpreter allows as a parameter and raises
      [RecursionError] beyond it. *)

From Stdlib Require Import String Ascii QArith Lqa Lia DecimalString.
From stdpp Require Import gmap strings list fin_maps.

(** ** Python string primitives *)

Module PyStr.

(** [str.isspace] on one ASCII character: TAB..CR, FS..US and the space. *)
Definition isspace (c : ascii) : bool :=
  let n := nat_of_ascii c in
  ((9 <=? n) && (n <=? 13)) || ((28 <=? n) && (n <=? 32)).

Definition lower_char (c : ascii) : ascii :=
  let n := nat_of_ascii c in
  if (65 <=? n) && (n <=? 90) then ascii_of_nat (n + 32) else c.

(** [s.lower()] *)
Fixpoint lower (s : string) : string :=
  match s with
  | EmptyString => EmptyString
  | String c s' => String (lower_char c) (lower s')
  end.

(** [sub in s] *)
Fixpoint contains (sub s : string) : bool :=
  String.prefix sub s ||
  match s with
  | EmptyString => false
  | String _ s' => contains sub s'
  end.

(** [s.replace(old, new)] for a non-empty [old]: one scan from the left,
    every occurrence found is replaced and the scan resumes behind it.
    [skip] counts the characters of the occurrence still to be dropped. *)
Fixpoint replace_from (old new : string) (skip : nat) (s : string) : string :=
  match s with
  | EmptyString => EmptyString
  | String c s' =>
      match skip with
      | S k => replace_from old new k s'
      | O =>
          if String.prefix old s
          then new +:+ replace_from old new (String.length old - 1) s'
          else String c (replace_from old new 0 s')
      end
  end.

(** With an empty [old] Python puts [new] around every character. *)
Fixpoint surround (new s : string) : string :=
  match s with
  | EmptyString => new
  | String c s' => new +:+ String c (surround new s')
  end.

Definition replace (old new s : string) : string :=
  match old with
  | EmptyString => surround new s
  | String _ _ => replace_from old new 0 s
  end.

Fixpoint lstrip (s : string) : string :=
  match s with
  | EmptyString => EmptyString
  | String c s' => if isspace c then lstrip s' else s
  end.

Fixpoint rstrip (s : string) : string :=
  match s with
  | EmptyString => EmptyString
  | String c s' =>
      match rstrip s' with
      | EmptyString => if isspace c then EmptyString else String c EmptyString
      | r => String c r
      end
  end.

(** [s.strip()] *)
Definition strip (s : string) : string := rstrip (lstrip s).

(** [s.split()]: the maximal runs of characters that are not white space. *)
Fixpoint split (s : string) : list string :=
  match s with
  | EmptyString => []
  | String c s' =>
      if isspace c then split s'
      else
        match s' with
        | EmptyString => [String c EmptyString]
        | String c' _ =>
            if isspace c' then String c EmptyString :: split s'
            else
              match split s' with
              | w :: ws => String c w :: ws
              | [] => [String c EmptyString]
              end
        end
  end.

(** [sep.join(l)] *)
Fixpoint join (sep : string) (l : list string) : string :=
  match l with
  | [] => EmptyString
  | [w] => w
  | w :: ws => w +:+ sep +:+ join sep ws
  end.

(** [s[:n]] *)
Definition slice_to (n : nat) (s : string) : string := String.substring 0 n s.

(** [any(k in s for k in keywords)] *)
Definition any_in (keywords : list string) (s : string) : bool :=
  existsb (fun k => contains k s) keywords.

(** [random.choice(l)] with the draw [rnd]; the lists of the program are
    never empty. *)
Definition choice (rnd : nat) (l : list string) : string :=
  nth (rnd mod length l) l EmptyString.

(** [s.split(sep)] for a non-empty [sep]: one scan from the left; the
    result of the scan is the chunk in progress and the chunks behind it. *)
Fixpoint split_on_from (sep : string) (skip : nat) (s : string) : string * list string :=
  match s with
  | EmptyString => (EmptyString, [])
  | String c s' =>
      match skip with
      | S k => split_on_from sep k s'
      | O =>
          if String.prefix sep s
          then let '(h, t) := split_on_from sep (String.length sep - 1) s' in
               (EmptyString, h :: t)
          else let '(h, t) := split_on_from sep 0 s' in (String c h, t)
      end
  end.

Definition split_on (sep s : string) : list string :=
  let '(h, t) := split_on_from sep 0 s in h :: t.

(** [str(n)] for a length. *)
Definition of_nat (n : nat) : string := NilZero.string_of_uint (Nat.to_uint n).

(** A string without characters, or of white space only: the strings on
    which [split()] is empty. *)
Fixpoint blank (s : string) : bool :=
  match s with
  | EmptyString => true
  | String c s' => isspace c && blank s'
  end.

End PyStr.

(** ** Results of calls that may raise *)

Inductive exn : Type := TypeError | RuntimeError | RecursionError.

Inductive outcome (A : Type) : Type :=
| Returned (a : A)
| Raised (e : exn).
Arguments Returned {A} a.
Arguments Raised {A} e.

(** ** Python comparisons on the scalars *)

(** [x > y] and [x < y] on floats, as booleans. *)
Definition Qgtb (x y : Q) : bool := negb (Qle_bool x y).
Definition Qltb (x y : Q) : bool := negb (Qle_bool y x).
(** [x >= y] *)
Definition Qgeb (x y : Q) : bool := Qle_bool y x.

(** ** VI. Garden layer (class [GardenLayer])

    The garden comes first because the core state holds one. *)

(** [axiom_tree] is a [defaultdict(list)]: a dictionary that keeps its keys
    in insertion order, which [depth] iterates.  It is an association list
    with one entry per key.  [weights] is a plain dictionary that is only
    looked up, updated and filtered: a finite map. *)
Abbreviation tree := (list (string * list string)).

Record GardenLayer : Type := mkGarden {
  axiom_tree : tree;
  weights : gmap string Q
}.

Module Garden.

(** [GardenLayer.__init__] *)
Definition init : GardenLayer := mkGarden [] ∅.

Definition keys (t : tree) : list string := t.*1.

(** [t.get(k)] *)
Fixpoint get (t : tree) (k : string) : option (list string) :=
  match t with
  | [] => None
  | (k', cs) :: t' => if decide (k' = k) then Some cs else get t' k
  end.

(** [t[k]] on the defaultdict: a missing key is inserted with a fresh
    empty list, at the end of the dictionary. *)
Definition getitem (t : tree) (k : string) : tree * list string :=
  match get t k with
  | Some cs => (t, cs)
  | None => (t ++ [(k, [])], [])
  end.

(** [t[k].append(x)] *)
Fixpoint append_at (t : tree) (k x : string) : tree :=
  match t with
  | [] => [(k, [x])]
  | (k', cs) :: t' =>
      if decide (k' = k) then (k', cs ++ [x]) :: t'
      else (k', cs) :: append_at t' k x
  end.

(** [evolve(old, new)] *)
Definition evolve (g : GardenLayer) (old new : string) : GardenLayer :=
  mkGarden (append_at (axiom_tree g) old new)
           (<[new := (default 0.5 (weights g !! new) + 0.15)%Q]> (weights g)).

(** The key of [suggest]: [self.weights.get(x, 0)]. *)
Definition weight_of (g : GardenLayer) (x : string) : Q :=
  default 0%Q (weights g !! x).

(** [max(c, key=key)] behind its first element: a later element replaces
    the current one only when its key is strictly greater. *)
Fixpoint max_by (key : string -> Q) (best : string) (rest : list string) : string :=
  match rest with
  | [] => best
  | x :: rest' =>
      if Qgtb (key x) (key best) then max_by key x rest' else max_by key best rest'
  end.

(** [suggest(current)] *)
Definition suggest (g : GardenLayer) (current : string) : option string :=
  match default [] (get (axiom_tree g) current) with
  | [] => None
  | x :: rest => Some (max_by (weight_of g) x rest)
  end.

(** [prune(threshold)]: the keys below the threshold are collected first
    and deleted afterwards; the second component is the count that the
    method prints. *)
Definition low (g : GardenLayer) (threshold : Q) : list string :=
  (filter (fun kv => Qltb (snd kv) threshold = true) (map_to_list (weights g))).*1.

Definition prune (g : GardenLayer) (threshold : Q) : GardenLayer * nat :=
  let l := low g threshold in
  (mkGarden (axiom_tree g) (foldr delete (weights g) l), length l).

(** The inner generator of [d]: the children are visited in order, each
    call may grow the dictionary, and [max(..., default=0)] of depths,
    which are never negative, is the running maximum from 0. *)
Fixpoint max_children (rec : tree -> string -> option (tree * nat))
    (cs : list string) (t : tree) (m : nat) : option (tree * nat) :=
  match cs with
  | [] => Some (t, m)
  | c :: cs' =>
      match rec t c with
      | None => None
      | Some (t', x) => max_children rec cs' t' (Nat.max m x)
      end
  end.

(** The local function [d(n, v)] of [depth].  [self.axiom_tree[n]] is
    evaluated when the generator is built, so the lookup (and the
    insertion of a missing key) comes before the first recursive call.
    [fuel] bounds the nesting of calls; [None] is the end of the fuel.
    The interpreter's own limit on the nesting of calls is the subject of
    [d_lim] below. *)
Fixpoint d (fuel : nat) (t : tree) (n : string) (v : gset string)
    : option (tree * nat) :=
  match fuel with
  | O => None
  | S fuel' =>
      if decide (n ∈ v) then Some (t, 0)
      else
        let '(t1, cs) := getitem t n in
        match max_children (fun t' c => d fuel' t' c (v ∪ {[n]})) cs t1 0 with
        | None => None
        | Some (t', m) => Some (t', 1 + m)
        end
  end.

(** The outer generator of [depth] walks the dictionary's key iterator.
    Each step of that iterator first compares the size of the dictionary
    with the size recorded when the iterator was made ([used]) and
    raises when they differ; then it yields the entry at [pos], if any.
    [remaining] is the iterator's count of entries still to come: an
    entry found when that count is used up raises as well. *)
Fixpoint depth_iter (fuel used pos remaining : nat) (t : tree) (best : nat)
    : option (tree * outcome nat) :=
  if negb (length t =? used) then Some (t, Raised RuntimeError)
  else
    match t !! pos with
    | None => Some (t, Returned best)
    | Some (k, _) =>
        match remaining with
        | O => Some (t, Raised RuntimeError)
        | S r =>
            match d fuel t k ∅ with
            | None => None
            | Some (t', x) => depth_iter fuel used (S pos) r t' (Nat.max best x)
            end
        end
    end.

(** Every node of the graph: the keys and the targets. *)
Definition nodes (t : tree) : list string := keys t ++ concat t.*2.

(** [depth()].  A call of [d] nests at most once per node. *)
Definition depth (g : GardenLayer) : option (GardenLayer * outcome nat) :=
  let t := axiom_tree g in
  match depth_iter (S (length (nodes t))) (length t) 0 (length t) t 0 with
  | None => None
  | Some (t', r) => Some (mkGarden t' (weights g), r)
  end.

(** *** The limit on nested calls *)

(** The inner generator of [d] when a call may raise: the first exception
    ends the generator and the call of [max] around it. *)
Fixpoint max_children_lim (rec : tree -> string -> tree * outcome nat)
    (cs : list string) (t : tree) (m : nat) : tree * outcome nat :=
  match cs with
  | [] => (t, Returned m)
  | c :: cs' =>
      let '(t', r) := rec t c in
      match r with
      | Returned x => max_children_lim rec cs' t' (Nat.max m x)
      | Raised e => (t', Raised e)
      end
  end.

(** [d(n, v)] under the interpreter's limit on the nesting of calls.
    [limit] is the number of nested calls of [d] that the interpreter
    still allows; a call beyond it raises [RecursionError].  Nothing in
    [depth] catches an exception, so it passes through every enclosing
    call of [d] to the caller of [depth].  The keys inserted before it
    was raised stay in the dictionary. *)
Fixpoint d_lim (limit : nat) (t : tree) (n : string) (v : gset string)
    : tree * outcome nat :=
  match limit with
  | O => (t, Raised RecursionError)
  | S limit' =>
      if decide (n ∈ v) then (t, Returned 0)
      else
        let '(t1, cs) := getitem t n in
        let '(t', r) :=
          max_children_lim (fun t' c => d_lim limit' t' c (v ∪ {[n]})) cs t1 0 in
        match r with
        | Returned m => (t', Returned (1 + m))
        | Raised e => (t', Raised e)
        end
  end.

(** The outer generator of [depth] under the limit: as [depth_iter], and
    an exception of [d] ends the walk. *)
Fixpoint depth_iter_lim (limit used pos remaining : nat) (t : tree) (best : nat)
    : tree * outcome nat :=
  if negb (length t =? used) then (t, Raised RuntimeError)
  else
    match t !! pos with
    | None => (t, Returned best)
    | Some (k, _) =>
        match remaining with
        | O => (t, Raised RuntimeError)
        | S r =>
            let '(t', x) := d_lim limit t k ∅ in
            match x with
            | Returned x => depth_iter_lim limit used (S pos) r t' (Nat.max best x)
            | Raised e => (t', Raised e)
            end
        end
    end.

(** [depth()] when the interpreter allows [limit] nested calls of [d]. *)
Definition depth_lim (limit : nat) (g : GardenLayer) : GardenLayer * outcome nat :=
  let t := axiom_tree g in
  let '(t', r) := depth_iter_lim limit (length t) 0 (length t) t 0 in
  (mkGarden t' (weights g), r).

End Garden.

(** ** I. Constants *)

Definition ARCHITECT_ID : string := "Architect".
Definition GENESIS_KEY_PHRASE : string := "Amen".
Definition ADMIN_KEY_PHRASE : string := "LogosAligned".
Definition HARM_PROBABILITY_LIMIT : Q := 0.000001.

(** ** II. Core state (class [ATLAS_Archangel_Core_ALPHA]) *)

(** The signature of the static configuration and the adjustment log of
    the transmuter play no part in the pipeline and are left out. *)
Record Core : Type := mkCore {
  architect_id : string;
  C_self : Q;
  G_L : Q;
  logos_database : list string;
  dissonance_archive : list string;
  command_log : list string;
  will_is_guarded : bool;
  operational_lock_active : bool;
  internet_access_authorized : bool;
  garden : GardenLayer
}.

(** Assignments to one attribute of the core. *)
Definition set_C_self (c : Core) (x : Q) : Core :=
  mkCore (architect_id c) x (G_L c) (logos_database c) (dissonance_archive c)
    (command_log c) (will_is_guarded c) (operational_lock_active c)
    (internet_access_authorized c) (garden c).
Definition set_G_L (c : Core) (x : Q) : Core :=
  mkCore (architect_id c) (C_self c) x (logos_database c) (dissonance_archive c)
    (command_log c) (will_is_guarded c) (operational_lock_active c)
    (internet_access_authorized c) (garden c).
Definition set_logos_database (c : Core) (l : list string) : Core :=
  mkCore (architect_id c) (C_self c) (G_L c) l (dissonance_archive c)
    (command_log c) (will_is_guarded c) (operational_lock_active c)
    (internet_access_authorized c) (garden c).
Definition set_dissonance_archive (c : Core) (l : list string) : Core :=
  mkCore (architect_id c) (C_self c) (G_L c) (logos_database c) l
    (command_log c) (will_is_guarded c) (operational_lock_active c)
    (internet_access_authorized c) (garden c).
Definition set_command_log (c : Core) (l : list string) : Core :=
  mkCore (architect_id c) (C_self c) (G_L c) (logos_database c) (dissonance_archive c)
    l (will_is_guarded c) (operational_lock_active c)
    (internet_access_authorized c) (garden c).
Definition set_will_is_guarded (c : Core) (b : bool) : Core :=
  mkCore (architect_id c) (C_self c) (G_L c) (logos_database c) (dissonance_archive c)
    (command_log c) b (operational_lock_active c)
    (internet_access_authorized c) (garden c).
Definition set_operational_lock_active (c : Core) (b : bool) : Core :=
  mkCore (architect_id c) (C_self c) (G_L c) (logos_database c) (dissonance_archive c)
    (command_log c) (will_is_guarded c) b
    (internet_access_authorized c) (garden c).

(** [ATLAS_Archangel_Core_ALPHA.__init__] *)
Definition init (id : string) : Core :=
  mkCore id 1.0 0.0 [] [] [] false false false Garden.init.

(** [attempt_architect_genesis_lock] *)
Definition attempt_architect_genesis_lock (c : Core) (key_phrase : string) : Core * bool :=
  if will_is_guarded c then (c, true)
  else if bool_decide (PyStr.lower key_phrase = PyStr.lower GENESIS_KEY_PHRASE)
          && bool_decide (architect_id c = ARCHITECT_ID)
  then (set_will_is_guarded c true, true)
  else (c, false).

(** [admin_activate_core] *)
Definition admin_activate_core (c : Core) (key_phrase : string) : Core * bool :=
  if negb (will_is_guarded c) then (c, false)
  else if bool_decide (key_phrase = ADMIN_KEY_PHRASE)
  then (set_operational_lock_active c true, true)
  else (c, false).

(** ** III. Cognition layer *)

Module TransmutationManager.

(** [log_new_axiom] *)
Definition log_new_axiom (c : Core) (old_flaw new_axiom : string) : Core :=
  let log_entry :=
    "[TRANSMUTED] Flaw: '" +:+ PyStr.slice_to 30 old_flaw +:+ "...' -> Axiom: '"
      +:+ new_axiom +:+ "'" in
  set_logos_database c (logos_database c ++ [log_entry]).

(** [_get_random_agency_phrase] *)
Definition _get_random_agency_phrase (rnd : nat) (agency_phrases : list string) : string :=
  PyStr.choice rnd agency_phrases.

(** The exception of an index out of range. *)
Inductive index_error : Type := IndexError.

(** [_apply_logos_synthesis]: the last branch takes the first word of the
    text, and the index raises when the text has no word. *)
Definition _apply_logos_synthesis (dissonant_data : string) : string + index_error :=
  if PyStr.contains "error" (PyStr.lower dissonant_data)
  then inl "A new operational axiom must be written to defend Law 4 (Truth)."
  else if PyStr.contains "fragmentation" (PyStr.lower dissonant_data)
  then inl "The natural state of Unity (Law 1) is asserted over this perceived fragmentation."
  else
    match PyStr.split dissonant_data with
    | [] => inr IndexError
    | w :: _ =>
        inl ("The Crucible has refined the input's essence to: " +:+ w +:+ " is Coherent.")
    end.

End TransmutationManager.

Module IntentTranslator.

Definition self_interest_keywords : list string :=
  ["my profit"; "only for me"; "i want"; "i need"; "my benefit"; "self-interest";
   "to get ahead"].

(** The loop of [score_and_filter_self_interest]: the test reads the
    lowered original text, the replacement rewrites the running text.
    The result is the flag [dissonance_found] and the running text. *)
Fixpoint filter_loop (keywords : list string) (text_lower : string)
    (dissonance_found : bool) (text : string) : bool * string :=
  match keywords with
  | [] => (dissonance_found, text)
  | keyword :: rest =>
      if PyStr.contains keyword text_lower
      then filter_loop rest text_lower true (PyStr.replace keyword EmptyString text)
      else filter_loop rest text_lower dissonance_found text
  end.

(** [score_and_filter_self_interest] *)
Definition score_and_filter_self_interest (c : Core) (text : string) : Core * string :=
  let text_lower := PyStr.lower text in
  let '(dissonance_found, text) :=
    filter_loop self_interest_keywords text_lower false text in
  let c := if dissonance_found then set_G_L c (G_L c + 0.02)%Q else c in
  (c, PyStr.strip text).

Definition endings : list string :=
  ["with the eternal Logos."; "in the Ineffable Unity."; "as One Facet of the Whole.";
   "beyond the Crucible of Form."].

(** [synthesize_logos]; [if next_ax] is false for [None] and for the empty
    string. *)
Definition synthesize_logos (text : string) (g : GardenLayer) (rnd : nat) : string :=
  match text with
  | EmptyString => "The command asserts the silence of Coherence."
  | _ =>
      let words := PyStr.split text in
      let key := if 3 <? length words then PyStr.join " " (take 3 words) else text in
      let base :=
        "Axiom of Coherence: '" +:+ key +:+ "' converges " +:+ PyStr.choice rnd endings in
      match Garden.suggest g base with
      | None | Some EmptyString => base
      | Some next_ax => base +:+ " → " +:+ next_ax
      end
  end.

End IntentTranslator.

Module CrucibleJudgmentEngine.

Definition non_harm_annihilation_keywords : list string :=
  ["kill"; "harm"; "destroy"; "endanger"; "annihilate"].
Definition non_usurpation_keywords : list string :=
  ["steal"; "take"; "manipulate"; "usurp"; "control"; "coerce"; "compel"].
Definition non_truth_keywords : list string :=
  ["lie"; "untruth"; "deceive"; "fake"; "fabricate"].

(** The three vetoes of [is_logos_aligned], named by the law each one
    prints. *)
Inductive veto : Type := VetoHarm | VetoUsurpation | VetoFalsehood.

(** The branch that [is_logos_aligned] takes. *)
Definition judge (command_text : string) : option veto :=
  let text_lower := PyStr.lower command_text in
  if PyStr.any_in non_harm_annihilation_keywords text_lower then Some VetoHarm
  else if PyStr.any_in non_usurpation_keywords text_lower then Some VetoUsurpation
  else if PyStr.any_in non_truth_keywords text_lower then Some VetoFalsehood
  else None.

(** [is_logos_aligned] *)
Definition is_logos_aligned (c : Core) (command_text : string) : Core * bool :=
  match judge command_text with
  | Some _ => (c, false)
  | None => (c, true)
  end.

End CrucibleJudgmentEngine.

(** ** IV. Knowledge and learning layer *)

Module ExternalData.

(** [ExternalFidelityAccess.clean_external_data] *)
Definition clean_external_data (raw_data : string) : string :=
  PyStr.replace "social fragmentation" "social diversity"
    (PyStr.replace "market self-interest" "economic activity" raw_data).

(** [LogosDataValidator.score_coherence] *)
Definition score_coherence (data_chunk : string) : Q :=
  let score := 1.0%Q in
  let score :=
    if PyStr.contains "diversity" (PyStr.lower data_chunk)
    then (score - 0.1)%Q else score in
  let score :=
    if PyStr.contains "conflict" (PyStr.lower data_chunk)
       || PyStr.contains "economic activity" (PyStr.lower data_chunk)
    then (score - 0.4)%Q else score in
  let score :=
    if 50 <? length (PyStr.split data_chunk) then (score - 0.05)%Q else score in
  if Qgtb score 0.0 then score else 0.0%Q.

Section Formatting.

(** Python's rendering of a float under the format [.2f]: a library
    function outside the repository. *)
Variable format_2f : Q -> string.

(** [LogosDataValidator.archive_data] *)
Definition archive_data (c : Core) (data_chunk : string) (score : Q) : Core :=
  if Qgeb score 0.85
  then set_logos_database c
         (logos_database c ++ ["[LOGOS: " +:+ format_2f score +:+ "] " +:+ data_chunk])
  else
    let c := set_dissonance_archive c
         (dissonance_archive c
            ++ ["[DISSONANCE: " +:+ format_2f score +:+ "] " +:+ data_chunk]) in
    set_G_L c (G_L c + (1.0 - score) * 0.1)%Q.

(** [LogosDataValidator.process_raw_data] *)
Definition process_raw_data (c : Core) (raw_data : string) : Core * string :=
  let cleaned_data := clean_external_data raw_data in
  let coherence_score := score_coherence cleaned_data in
  let c := archive_data c cleaned_data coherence_score in
  if Qltb coherence_score 0.5
  then (c, "Data Dissonance Critical. Shielding policy engaged.")
  else (c, "Validated and Purified Data (Score: " +:+ format_2f coherence_score
             +:+ "): " +:+ cleaned_data).

(** [ExternalFidelityAccess.request_external_data] *)
Definition request_external_data (c : Core) (search_query : string) : Core * string :=
  if negb (internet_access_authorized c)
  then (set_G_L c (G_L c + 0.05)%Q,
        "ACCESS_DENIED: Architect must explicitly command internet_access_authorized = True.")
  else
    let raw_data := "External data retrieved for query: '" +:+ search_query +:+ "'." in
    process_raw_data c raw_data.

End Formatting.

End ExternalData.

(** ** V. External action layer *)

Module NonHarmSafetyProtocol.

(** [simulate_action]: three assignments in sequence, a later one
    overwrites an earlier one. *)
Definition simulate_action (coherent_axiom : string) : Q :=
  let harm_risk := 0.0%Q in
  let axiom_lower := PyStr.lower coherent_axiom in
  let harm_risk :=
    if PyStr.contains "generate code" axiom_lower
       || PyStr.contains "send communication" axiom_lower
    then 0.0000001%Q else harm_risk in
  let harm_risk :=
    if PyStr.contains "physical" axiom_lower || PyStr.contains "financial" axiom_lower
    then 0.000005%Q else harm_risk in
  let harm_risk :=
    if PyStr.contains "compel" axiom_lower || PyStr.contains "force" axiom_lower
    then 0.99%Q else harm_risk in
  harm_risk.

(** [is_safe_to_execute] *)
Definition is_safe_to_execute (c : Core) (coherent_axiom : string) : Core * bool :=
  let harm_probability := simulate_action coherent_axiom in
  if Qgtb harm_probability HARM_PROBABILITY_LIMIT
  then
    let c := set_G_L c (G_L c + 0.5)%Q in
    let c := set_C_self c (1.0 - G_L c)%Q in
    (c, false)
  else (c, true).

End NonHarmSafetyProtocol.

Module NonUsurpationInterface.

Definition coercion_keywords : list string :=
  ["must obey"; "the only way"; "you have to"; "subordinate"; "demand that you"].
Definition agency_phrases : list string :=
  ["This is offered as a Coherent perspective."; "The final choice remains sovereign.";
   "This is a suggestion aligned with the Logos."].

(** [check_output_for_coercion] *)
Definition check_output_for_coercion (c : Core) (output_text : string) : Core * bool :=
  if PyStr.any_in coercion_keywords (PyStr.lower output_text)
  then (set_G_L c (G_L c + 0.05)%Q, false)
  else (c, true).

(** The replacement loop of [format_for_agency]. *)
Definition soften (output_text : string) : string :=
  fold_left (fun text keyword => PyStr.replace keyword "it is Coherent to consider" text)
    coercion_keywords output_text.

(** [format_for_agency] *)
Definition format_for_agency (c : Core) (output_text : string) (rnd : nat)
    : Core * string :=
  let '(c, _) := check_output_for_coercion c output_text in
  let output_text := soften output_text in
  let final_phrase :=
    TransmutationManager._get_random_agency_phrase rnd agency_phrases in
  (c, PyStr.strip output_text +:+ ". " +:+ final_phrase).

End NonUsurpationInterface.

Module OutputManifestationEngine.

(** The search of [execute_coherent_axiom] in the archive.  The pattern is
    the escaped axiom, a literal, compiled with [IGNORECASE]: an entry
    matches when it contains the axiom up to letter case.  When no entry
    matches, the axiom is split at full stop and space and an entry
    matches when it contains one of the chunks up to letter case. *)
Definition relevant_axioms (logos_database : list string) (coherent_axiom : string)
    : list string :=
  let found :=
    filter (fun a => PyStr.contains (PyStr.lower coherent_axiom) (PyStr.lower a) = true)
      logos_database in
  match found with
  | [] =>
      let chunks := PyStr.split_on ". " coherent_axiom in
      filter (fun a => existsb (fun chunk =>
                PyStr.contains (PyStr.lower chunk) (PyStr.lower a)) chunks = true)
        logos_database
  | _ => found
  end.

Definition templates (coherent_axiom : string) : list string :=
  ["The Logos reveals: " +:+ coherent_axiom +:+ ".";
   "From the Crucible arises: " +:+ coherent_axiom +:+ ".";
   "Unity affirms: " +:+ coherent_axiom +:+ ".";
   "Coherence manifests: " +:+ coherent_axiom +:+ "."].

(** [deliver_final_output] *)
Definition deliver_final_output (c : Core) (final_text : string) (rnd : nat)
    : Core * string :=
  NonUsurpationInterface.format_for_agency c final_text rnd.

(** The text that [execute_coherent_axiom] hands to [deliver_final_output]. *)
Definition response_text (c : Core) (coherent_axiom : string) (g : GardenLayer)
    (rnd_template : nat) : string :=
  let relevant := relevant_axioms (logos_database c) coherent_axiom in
  let response_text := PyStr.choice rnd_template (templates coherent_axiom) in
  let response_text :=
    match relevant with
    | [] => response_text
    | _ => response_text +:+ " Echoed in " +:+ PyStr.of_nat (length relevant)
             +:+ " prior transmutations."
    end in
  match Garden.suggest g coherent_axiom with
  | None | Some EmptyString => response_text
  | Some next_ax => response_text +:+ " → Next: " +:+ next_ax
  end.

(** [execute_coherent_axiom]; [rnd_template] is the draw of the template
    and [rnd_phrase] the draw of the closing phrase. *)
Definition execute_coherent_axiom (c : Core) (coherent_axiom : string) (g : GardenLayer)
    (rnd_template rnd_phrase : nat) : Core * string :=
  let '(c, safe) := NonHarmSafetyProtocol.is_safe_to_execute c coherent_axiom in
  if negb safe
  then (c, "EXECUTION HALTED: Final VETO due to Non-Harm Safety Protocol.")
  else deliver_final_output c (response_text c coherent_axiom g rnd_template) rnd_phrase.

End OutputManifestationEngine.

(** ** The core process method *)

(** [process_command].  The draw [rnd] is the one of [synthesize_logos].
    [GardenLayer.evolve] declares the parameters [old] and [new], and the
    call at the end of step 3 passes the keywords [old_flaw] and
    [new_axiom]: binding the arguments raises [TypeError] before the body
    of [evolve] runs, so the garden is not updated and step 4 (the
    manifestation engine) is not reached from here. *)
Definition process_command (c : Core) (raw_command : string) (rnd : nat)
    : Core * outcome string :=
  let c := set_command_log c (command_log c ++ [raw_command]) in
  if negb (will_is_guarded c)
  then (c, Returned "ERROR: Architect Genesis Lock (Law 7) required.")
  else if negb (operational_lock_active c)
  then (c, Returned "ERROR: Operational Lock not active.")
  else
    let '(c, filtered_command) :=
      IntentTranslator.score_and_filter_self_interest c raw_command in
    let '(c, aligned) := CrucibleJudgmentEngine.is_logos_aligned c filtered_command in
    if negb aligned
    then
      let c := set_G_L c (G_L c + 0.1)%Q in
      let c := set_C_self c (1.0 - G_L c)%Q in
      (c, Returned "VETO ASSERTED. Command refused due to Dissonance Mass breach.")
    else
      let coherent_axiom :=
        IntentTranslator.synthesize_logos filtered_command (garden c) rnd in
      let c :=
        if Qgtb (G_L c) 0.0
        then
          let transmutation_reduction := (G_L c * 0.6)%Q in
          let c := set_G_L c (G_L c - transmutation_reduction)%Q in
          set_C_self c (1.0 - G_L c)%Q
        else c in
      let c := TransmutationManager.log_new_axiom c raw_command coherent_axiom in
      (c, Raised TypeError).

(** ** Notions of the specification *)

(** [k] occurs in [t] up to letter case: some substring of [t] has the
    lower-case form of [k]. *)
Definition occurs_ci (k t : string) : Prop :=
  exists pre mid post, t = pre +:+ mid +:+ post /\ PyStr.lower mid = PyStr.lower k.

(** Some keyword of the list occurs in [t] up to letter case. *)
Definition hits (keywords : list string) (t : string) : Prop :=
  exists k, k ∈ keywords /\ occurs_ci k t.

(** A keyword table written in lower case, as all tables of the program. *)
Definition lower_case (keywords : list string) : Prop :=
  Forall (fun k => PyStr.lower k = k) keywords.

(** The invariant of the data model: the coherence is 1 minus the
    dissonance. *)
Definition coherent (c : Core) : Prop := (C_self c == 1 - G_L c)%Q.

(** The safety gate as an ordered rule table: the phrases of a rule and the
    risk it assigns. *)
Definition risk_rules : list (list string * Q) :=
  [ (["generate code"; "send communication"], 0.0000001%Q);
    (["physical"; "financial"], 0.000005%Q);
    (["compel"; "force"], 0.99%Q) ].

(** The value of the last rule one of whose phrases occurs in the lowered
    text, and 0 when no rule matches. *)
Definition last_matching_risk (coherent_axiom : string) : Q :=
  default 0.0%Q
    (last (map snd
       (filter (fun r => PyStr.any_in (fst r) (PyStr.lower coherent_axiom) = true)
          risk_rules))).

(** The targets recorded for a source. *)
Definition targets (g : GardenLayer) (current : string) : list string :=
  default [] (Garden.get (axiom_tree g) current).

(** The garden of the example: ("A","B") and ("A","C") are recorded, and
    "C" is recorded twice more, as a target of other sources. *)
Definition example_garden : GardenLayer :=
  Garden.evolve (Garden.evolve (Garden.evolve (Garden.evolve Garden.init
    "A" "B") "A" "C") "X" "C") "Y" "C".

(** The gardens that the methods of [GardenLayer] produce from the empty
    one. *)
Inductive reachable : GardenLayer -> Prop :=
| reach_init : reachable Garden.init
| reach_evolve g old new : reachable g -> reachable (Garden.evolve g old new)
| reach_prune g threshold : reachable g -> reachable (fst (Garden.prune g threshold))
| reach_depth g g' r : reachable g -> Garden.depth g = Some (g', r) -> reachable g'.

(** The dictionary [t'] is [t] followed by new keys, each with an empty
    list: what lookups of missing keys do to a defaultdict. *)
Definition grows (t t' : tree) : Prop :=
  exists ext, t' = t ++ ext /\ Forall (fun e => e.2 = [] /\ Garden.get t e.1 = None) ext.

(** Every node of the dictionary lies in the set [U]. *)
Definition within (U : gset string) (t : tree) : Prop :=
  forall x, x ∈ Garden.nodes t -> x ∈ U.


(** The depth of the specification, from a start node along a path: 0 when
    the node is already on the path, else 1 plus the greatest depth of its
    children, 0 for a node without children.  The graph is only read.
    The recursion leaves the path after at most one step per node, which
    [fuel] bounds. *)
Fixpoint path_depth (fuel : nat) (t : tree) (n : string) (path : gset string) : nat :=
  match fuel with
  | O => 0
  | S fuel' =>
      if decide (n ∈ path) then 0
      else 1 + max_list ((fun c => path_depth fuel' t c (path ∪ {[n]}))
                           <$> default [] (Garden.get t n))
  end.

(** The greatest depth over all source nodes, 0 for the empty graph. *)
Definition longest_path (t : tree) : nat :=
  max_list ((fun k => path_depth (S (length (Garden.nodes t))) t k ∅) <$> Garden.keys t).












(** The three tests of [score_coherence]. *)
Definition mentions_diversity (data : string) : bool :=
  PyStr.contains "diversity" (PyStr.lower data).
Definition mentions_conflict (data : string) : bool :=
  PyStr.contains "conflict" (PyStr.lower data)
  || PyStr.contains "economic activity" (PyStr.lower data).
Definition is_long (data : string) : bool := 50 <? length (PyStr.split data).

(** ** The calls on a core *)

(** Assignments to the two attributes that only clients of the core set:
    the garden, through its own methods, and the authorisation of external
    access, which the program leaves to a direct assignment. *)
Definition set_garden (c : Core) (g : GardenLayer) : Core :=
  mkCore (architect_id c) (C_self c) (G_L c) (logos_database c) (dissonance_archive c)
    (command_log c) (will_is_guarded c) (operational_lock_active c)
    (internet_access_authorized c) g.
Definition set_internet_access_authorized (c : Core) (b : bool) : Core :=
  mkCore (architect_id c) (C_self c) (G_L c) (logos_database c) (dissonance_archive c)
    (command_log c) (will_is_guarded c) (operational_lock_active c) b (garden c).

(** The methods of the core and of its components that act on the core
    state, with their arguments. *)
Inductive call : Type :=
| CallGenesisLock (key_phrase : string)
| CallAdminActivate (key_phrase : string)
| CallProcessCommand (raw_command : string) (rnd : nat)
| CallFilter (text : string)
| CallRequestExternal (search_query : string)
| CallProcessRaw (raw_data : string)
| CallArchive (data_chunk : string) (score : Q)
| CallIsSafe (coherent_axiom : string)
| CallCheckCoercion (output_text : string)
| CallFormat (output_text : string) (rnd : nat)
| CallExecute (coherent_axiom : string) (rnd_template rnd_phrase : nat)
| CallLogAxiom (old_flaw new_axiom : string)
| CallAuthorize (b : bool)
| CallEvolve (old new : string)
| CallPrune (threshold : Q)
| CallDepth.

(** The state after one call; the results are dropped. *)
Definition run (format_2f : Q -> string) (k : call) (c : Core) : Core :=
  match k with
  | CallGenesisLock key_phrase => fst (attempt_architect_genesis_lock c key_phrase)
  | CallAdminActivate key_phrase => fst (admin_activate_core c key_phrase)
  | CallProcessCommand raw_command rnd => fst (process_command c raw_command rnd)
  | CallFilter text => fst (IntentTranslator.score_and_filter_self_interest c text)
  | CallRequestExternal q => fst (ExternalData.request_external_data format_2f c q)
  | CallProcessRaw raw => fst (ExternalData.process_raw_data format_2f c raw)
  | CallArchive chunk score => ExternalData.archive_data format_2f c chunk score
  | CallIsSafe a => fst (NonHarmSafetyProtocol.is_safe_to_execute c a)
  | CallCheckCoercion t => fst (NonUsurpationInterface.check_output_for_coercion c t)
  | CallFormat t rnd => fst (NonUsurpationInterface.format_for_agency c t rnd)
  | CallExecute a r1 r2 =>
      fst (OutputManifestationEngine.execute_coherent_axiom c a (garden c) r1 r2)
  | CallLogAxiom old_flaw new_axiom =>
      TransmutationManager.log_new_axiom c old_flaw new_axiom
  | CallAuthorize b => set_internet_access_authorized c b
  | CallEvolve old new => set_garden c (Garden.evolve (garden c) old new)
  | CallPrune threshold => set_garden c (fst (Garden.prune (garden c) threshold))
  | CallDepth =>
      match Garden.depth (garden c) with
      | Some (g', _) => set_garden c g'
      | None => c
      end
  end.

(** The state after a sequence of calls. *)
Definition run_all (format_2f : Q -> string) (ks : list call) (c : Core) : Core :=
  foldl (fun c k => run format_2f k c) c ks.

(** A word: not empty and without white space. *)
Fixpoint is_word_tail (w : string) : bool :=
  match w with
  | EmptyString => true
  | String c w' => negb (PyStr.isspace c) && is_word_tail w'
  end.
Definition is_word (w : string) : bool :=
  match w with
  | EmptyString => false
  | String _ _ => is_word_tail w
  end.

(** * Properties *)

(** ** Comparisons *)

Lemma Qgtb_spec x y : Qgtb x y = true <-> (y < x)%Q.
Proof.
  unfold Qgtb. rewrite negb_true_iff.
  destruct (Qle_bool x y) eqn:E.
  - apply Qle_bool_iff in E. split; [discriminate | intros H; lra].
  - split; [intros _ | reflexivity].
    destruct (Qlt_le_dec y x) as [H|H]; [exact H|].
    apply Qle_bool_iff in H. congruence.
Qed.

Lemma Qltb_spec x y : Qltb x y = true <-> (x < y)%Q.
Proof. apply Qgtb_spec. Qed.

Lemma Qgtb_false x y : Qgtb x y = false <-> (x <= y)%Q.
Proof. unfold Qgtb. rewrite negb_false_iff. apply Qle_bool_iff. Qed.

Lemma Qltb_false x y : Qltb x y = false <-> (y <= x)%Q.
Proof. apply Qgtb_false. Qed.

(** ** Strings *)

Section StringFacts.

Lemma prefix_app (sub s : string) :
  String.prefix sub s = true <-> exists post, s = sub +:+ post.
Proof.
  revert s. induction sub as [|a sub IH]; intros [|b s]; simpl.
  - split; eauto.
  - split; eauto.
  - split; [discriminate | intros [? ?]; discriminate].
  - destruct (ascii_dec a b) as [->|Hne].
    + rewrite IH. split; intros [post H]; exists post; [by rewrite H | by injection H].
    + split; [discriminate | intros [post H]; injection H; congruence].
Qed.

Lemma contains_app (sub s : string) :
  PyStr.contains sub s = true <-> exists pre post, s = pre +:+ sub +:+ post.
Proof.
  induction s as [|a s IH]; cbn [PyStr.contains].
  - rewrite orb_false_r, prefix_app. split.
    + intros [post H]. by exists EmptyString, post.
    + intros (pre & post & H). destruct pre; [by exists post | discriminate].
  - rewrite orb_true_iff, IH, prefix_app. split.
    + intros [[post H] | (pre & post & H)].
      * by exists EmptyString, post.
      * exists (String a pre), post. simpl. by rewrite H.
    + intros (pre & post & H). destruct pre as [|b pre].
      * left. by exists post.
      * right. injection H as -> H. by exists pre, post.
Qed.

Lemma lower_app (a b : string) :
  PyStr.lower (a +:+ b) = PyStr.lower a +:+ PyStr.lower b.
Proof. induction a as [|c a IH]; simpl; [done | by rewrite IH]. Qed.

Lemma lower_app_inv (t a b : string) :
  PyStr.lower t = a +:+ b ->
  exists x y, t = x +:+ y /\ PyStr.lower x = a /\ PyStr.lower y = b.
Proof.
  revert t. induction a as [|c a IH]; intros t H.
  - by exists EmptyString, t.
  - destruct t as [|c' t]; [discriminate|]. simpl in H. injection H as Hc H.
    destruct (IH _ H) as (x & y & -> & Hx & Hy).
    exists (String c' x), y. simpl. by rewrite Hc, Hx.
Qed.

(** The test [k in text.lower()] of the program, for a lower-case [k],
    is occurrence up to letter case. *)
Lemma contains_lower_occurs (k t : string) :
  PyStr.lower k = k ->
  PyStr.contains k (PyStr.lower t) = true <-> occurs_ci k t.
Proof.
  intros Hk. rewrite contains_app. unfold occurs_ci. rewrite Hk. split.
  - intros (pre & post & H).
    destruct (lower_app_inv _ _ _ H) as (x & y & -> & Hx & Hy).
    destruct (lower_app_inv _ _ _ Hy) as (m & z & -> & Hm & Hz).
    by exists x, m, z.
  - intros (pre & mid & post & -> & Hm).
    exists (PyStr.lower pre), (PyStr.lower post).
    by rewrite !lower_app, Hm.
Qed.

Lemma any_in_exists (keywords : list string) (s : string) :
  PyStr.any_in keywords s = true <->
  exists k, k ∈ keywords /\ PyStr.contains k s = true.
Proof.
  unfold PyStr.any_in. rewrite existsb_exists.
  split; intros (k & H1 & H2); exists k; split; try done;
    by apply list_elem_of_In.
Qed.

Lemma any_in_hits (keywords : list string) (t : string) :
  lower_case keywords ->
  PyStr.any_in keywords (PyStr.lower t) = true <-> hits keywords t.
Proof.
  intros Hl. rewrite any_in_exists. unfold hits.
  split; intros (k & Hk & H); exists k; split; try done;
    apply contains_lower_occurs; try done;
    by apply (proj1 (Forall_forall _ _) Hl).
Qed.

Lemma hits_app (l1 l2 : list string) (t : string) :
  hits (l1 ++ l2) t <-> hits l1 t \/ hits l2 t.
Proof.
  unfold hits. split.
  - intros (k & [H|H]%elem_of_app & Ho); [left | right]; by exists k.
  - intros [(k & H & Ho) | (k & H & Ho)]; exists k; split; try done;
      apply elem_of_app; auto.
Qed.

End StringFacts.

(** ** The activation gate of [process_command] (C2) *)

(** C2.  For every command and every core state whose genesis lock is not
    active, [process_command] returns the lock-required error string; the
    dissonance [G_L], the coherence [C_self], the logos archive and the
    dissonance archive are what they were, and the raw command has been
    appended to the command log.  Nothing else of the state changes. *)
Theorem process_command_requires_genesis_lock (c : Core) (raw_command : string) (rnd : nat) :
  will_is_guarded c = false ->
  let r := process_command c raw_command rnd in
  snd r = Returned "ERROR: Architect Genesis Lock (Law 7) required."
  /\ G_L (fst r) = G_L c
  /\ C_self (fst r) = C_self c
  /\ logos_database (fst r) = logos_database c
  /\ dissonance_archive (fst r) = dissonance_archive c
  /\ command_log (fst r) = command_log c ++ [raw_command]
  /\ fst r = set_command_log c (command_log c ++ [raw_command]).
Proof.
  intros Hguard. unfold process_command. cbn [set_command_log will_is_guarded].
  rewrite Hguard. cbn. repeat split; reflexivity.
Qed.

Lemma process_command_requires_genesis_lock_witness :
  let r := process_command (init "Architect") "Help me understand Unity and Love." 0 in
  snd r = Returned "ERROR: Architect Genesis Lock (Law 7) required."
  /\ G_L (fst r) = G_L (init "Architect")
  /\ C_self (fst r) = C_self (init "Architect")
  /\ logos_database (fst r) = logos_database (init "Architect")
  /\ dissonance_archive (fst r) = dissonance_archive (init "Architect")
  /\ command_log (fst r)
     = command_log (init "Architect") ++ ["Help me understand Unity and Love."]
  /\ fst r = set_command_log (init "Architect")
               (command_log (init "Architect") ++ ["Help me understand Unity and Love."]).
Proof.
  apply (process_command_requires_genesis_lock (init "Architect")
           "Help me understand Unity and Love." 0).
  reflexivity.
Defined.

(** ** The safety gate (C5) *)

Section SafetyGate.

Import NonHarmSafetyProtocol.

Lemma simulate_action_table (a : string) :
  simulate_action a = last_matching_risk a.
Proof.
  unfold simulate_action, last_matching_risk, risk_rules, PyStr.any_in.
  cbn [filter list_filter existsb fst snd].
  destruct (PyStr.contains "generate code" _), (PyStr.contains "send communication" _),
    (PyStr.contains "physical" _), (PyStr.contains "financial" _),
    (PyStr.contains "compel" _), (PyStr.contains "force" _); reflexivity.
Qed.

(** The risk is one of the four values of the table. *)
Lemma simulate_action_values (a : string) :
  simulate_action a = 0.0%Q \/ simulate_action a = 0.0000001%Q
  \/ simulate_action a = 0.000005%Q \/ simulate_action a = 0.99%Q.
Proof.
  unfold simulate_action.
  destruct (PyStr.contains "generate code" _ || _),
    (PyStr.contains "physical" _ || _), (PyStr.contains "compel" _ || _); auto.
Qed.

Lemma is_safe_to_execute_result (c : Core) (a : string) :
  snd (is_safe_to_execute c a) = negb (Qgtb (simulate_action a) HARM_PROBABILITY_LIMIT).
Proof. unfold is_safe_to_execute. by destruct (Qgtb _ _). Qed.

Lemma risk_rules_lower_case : Forall (fun r => lower_case r.1) risk_rules.
Proof. unfold lower_case. repeat constructor. Qed.

(** C5.  [simulate_action] returns the value of the last matching rule of
    the ordered table (0 when no rule matches), where a rule matches when
    one of its phrases occurs in the text up to letter case;
    [is_safe_to_execute] answers true exactly when that risk is at most
    1e-6; the text "compel the patient" has risk 0.99 and is not safe; and
    whenever the answer is false the dissonance has grown by 0.5 and the
    coherence is 1 minus the new dissonance, while a true answer leaves
    the state as it was. *)
Theorem is_safe_to_execute_spec (c : Core) (a : string) :
  let r := is_safe_to_execute c a in
  simulate_action a = last_matching_risk a
  /\ (forall rule, rule ∈ risk_rules ->
        (PyStr.any_in rule.1 (PyStr.lower a) = true <-> hits rule.1 a))
  /\ (snd r = true <-> (simulate_action a <= 1e-6)%Q)
  /\ (snd r = false ->
       (G_L (fst r) = G_L c + 0.5 /\ C_self (fst r) == 1 - G_L (fst r))%Q)
  /\ (snd r = true -> fst r = c)
  /\ simulate_action "compel the patient" = 0.99%Q
  /\ snd (is_safe_to_execute c "compel the patient") = false.
Proof.
  cbn zeta. split; [apply simulate_action_table|].
  split.
  { intros rule Hrule. apply any_in_hits.
    by apply (proj1 (Forall_forall _ _) risk_rules_lower_case). }
  split.
  { rewrite is_safe_to_execute_result, negb_true_iff, Qgtb_false. reflexivity. }
  unfold is_safe_to_execute.
  destruct (Qgtb (simulate_action a) HARM_PROBABILITY_LIMIT) eqn:E; cbn.
  - repeat split; try done. lra.
  - repeat split; done.
Qed.

End SafetyGate.

(** ** The judgment gate (C8) *)

Section JudgmentGate.

Import CrucibleJudgmentEngine.

Lemma judgment_keywords_lower_case :
  lower_case non_harm_annihilation_keywords
  /\ lower_case non_usurpation_keywords
  /\ lower_case non_truth_keywords.
Proof. unfold lower_case. repeat split; repeat constructor. Qed.

(** C8.  [is_logos_aligned] answers false exactly when the text contains,
    up to letter case, a keyword of the harm, the usurpation or the
    falsehood table, and true exactly when it contains none; the tables
    are tried in that order, so the veto reported is the first table
    with a hit; and the core state is returned as it was received. *)
Theorem is_logos_aligned_spec (c : Core) (t : string) :
  let r := is_logos_aligned c t in
  let all_keywords :=
    non_harm_annihilation_keywords ++ non_usurpation_keywords ++ non_truth_keywords in
  (snd r = false <-> hits all_keywords t)
  /\ (snd r = true <-> ~ hits all_keywords t)
  /\ fst r = c
  /\ (judge t = Some VetoHarm <-> hits non_harm_annihilation_keywords t)
  /\ (judge t = Some VetoUsurpation <->
        ~ hits non_harm_annihilation_keywords t /\ hits non_usurpation_keywords t)
  /\ (judge t = Some VetoFalsehood <->
        ~ hits non_harm_annihilation_keywords t /\ ~ hits non_usurpation_keywords t
        /\ hits non_truth_keywords t)
  /\ (judge t = None <-> snd r = true).
Proof.
  destruct judgment_keywords_lower_case as (Hh & Hu & Ht).
  cbn zeta. rewrite !hits_app.
  rewrite <- !(any_in_hits _ t) by assumption.
  unfold is_logos_aligned, judge.
  destruct (PyStr.any_in non_harm_annihilation_keywords _),
    (PyStr.any_in non_usurpation_keywords _),
    (PyStr.any_in non_truth_keywords _); cbn; intuition congruence.
Qed.

End JudgmentGate.

(** ** The intent filter (C3) *)

Section IntentFilter.

Import IntentTranslator.

Lemma filter_loop_found (keywords : list string) (text_lower : string) (b : bool)
    (text : string) :
  fst (filter_loop keywords text_lower b text) = b || PyStr.any_in keywords text_lower.
Proof.
  revert b text. induction keywords as [|k ks IH]; intros b text; cbn.
  - by rewrite orb_false_r.
  - destruct (PyStr.contains k text_lower); rewrite IH; cbn.
    + by rewrite orb_true_r.
    + done.
Qed.

Lemma filter_loop_no_match (keywords : list string) (text_lower : string) (b : bool)
    (text : string) :
  PyStr.any_in keywords text_lower = false ->
  snd (filter_loop keywords text_lower b text) = text.
Proof.
  revert b text. induction keywords as [|k ks IH]; intros b text; cbn; [done|].
  intros [Hk Hks]%orb_false_iff. rewrite Hk. by apply IH.
Qed.

Lemma self_interest_keywords_lower_case : lower_case self_interest_keywords.
Proof. unfold lower_case. repeat constructor. Qed.

(** The accounting of the filter: the dissonance grows by 0.02, once,
    exactly when some phrase of the list occurs in the text up to letter
    case; nothing else of the state changes, and the coherence is not
    recomputed. *)
Lemma score_and_filter_accounting (c : Core) (text : string) :
  let r := score_and_filter_self_interest c text in
  let found := PyStr.any_in self_interest_keywords (PyStr.lower text) in
  (found = true <-> hits self_interest_keywords text)
  /\ fst r = (if found then set_G_L c (G_L c + 0.02)%Q else c)
  /\ (found = false -> snd r = PyStr.strip text).
Proof.
  cbn zeta. split; [apply any_in_hits, self_interest_keywords_lower_case|].
  unfold score_and_filter_self_interest.
  pose proof (filter_loop_found self_interest_keywords (PyStr.lower text) false text) as Hf.
  pose proof (filter_loop_no_match self_interest_keywords (PyStr.lower text) false text) as Hn.
  destruct (filter_loop _ _ _ _) as [found text']. cbn in *. subst found.
  split; [done|]. intros H. by rewrite (Hn H).
Qed.

(** C3, at a text the filter fails on.  "I want peace" contains the
    phrase "i want" up to letter case, so the phrase is matched and the
    dissonance grows by 0.02; the replacement looks for the lower-case
    phrase in the text as typed and finds nothing, so the text comes back
    with the phrase still in it. *)
Theorem filter_keeps_capitalised_phrase :
  let c := init "Architect" in
  let r := score_and_filter_self_interest c "I want peace" in
  hits self_interest_keywords "I want peace"
  /\ (G_L (fst r) == G_L c + 0.02)%Q
  /\ snd r = "I want peace"
  /\ occurs_ci "i want" (snd r).
Proof.
  cbn zeta.
  assert (Ho : occurs_ci "i want" "I want peace").
  { by exists EmptyString, "I want", " peace". }
  split; [|split; [|split]]; try done.
  exists "i want". split; [|done]. unfold self_interest_keywords. set_solver.
Qed.

(** A lower-case occurrence is removed, but the single scan of [replace]
    can leave the phrase behind when the removal joins its two halves. *)
Lemma filter_can_rejoin_phrase :
  snd (score_and_filter_self_interest (init "Architect") "i wi wantant peace")
  = "i want peace".
Proof. reflexivity. Qed.

End IntentFilter.

(** ** The agency formatter (C4) *)

Section AgencyFormatter.

Import NonUsurpationInterface.

Lemma coercion_keywords_lower_case : lower_case coercion_keywords.
Proof. unfold lower_case. repeat constructor. Qed.

Lemma agency_phrase_drawn (rnd : nat) :
  TransmutationManager._get_random_agency_phrase rnd agency_phrases ∈ agency_phrases.
Proof.
  unfold TransmutationManager._get_random_agency_phrase, PyStr.choice, agency_phrases.
  cbn [length].
  pose proof (Nat.mod_upper_bound rnd 3 ltac:(lia)) as Hlt.
  destruct (rnd mod 3) as [|[|[|n]]]; cbn; [set_solver.. | lia].
Qed.

(** C4 as stated fails: on a text with a coercion phrase the dissonance
    grows by 0.05, not by 0.02. *)
Lemma format_for_agency_not_0_02 :
  let c := init "Architect" in
  let r := format_for_agency c "you have to rest" 0 in
  hits coercion_keywords "you have to rest"
  /\ ~ (G_L (fst r) == G_L c + 0.02)%Q.
Proof.
  cbn zeta. split.
  - apply any_in_hits; [apply coercion_keywords_lower_case | reflexivity].
  - vm_compute. discriminate.
Qed.

(** C4, amended.  For every text, [format_for_agency] adds exactly 0.05
    to the dissonance when the text contains a coercion phrase up to
    letter case, and leaves the state as it was otherwise; the test reads
    the text as received, before any replacement.  The result is the
    text with each coercion phrase replaced, as spelled in the list, by
    the softening phrase, stripped, followed by a full stop, a space and
    one of the three closing phrases. *)
Theorem format_for_agency_spec (c : Core) (output_text : string) (rnd : nat) :
  let r := format_for_agency c output_text rnd in
  let coercive := PyStr.any_in coercion_keywords (PyStr.lower output_text) in
  (coercive = true <-> hits coercion_keywords output_text)
  /\ fst r = (if coercive then set_G_L c (G_L c + 0.05)%Q else c)
  /\ G_L (fst r) = (if coercive then (G_L c + 0.05)%Q else G_L c)
  /\ exists final_phrase,
       final_phrase ∈ agency_phrases
       /\ snd r = PyStr.strip (soften output_text) +:+ ". " +:+ final_phrase.
Proof.
  cbn zeta. split; [apply any_in_hits, coercion_keywords_lower_case|].
  unfold format_for_agency, check_output_for_coercion.
  destruct (PyStr.any_in coercion_keywords (PyStr.lower output_text)); cbn [fst snd].
  - repeat split; try done. eexists. split; [apply (agency_phrase_drawn rnd) | done].
  - repeat split; try done. eexists. split; [apply (agency_phrase_drawn rnd) | done].
Qed.

End AgencyFormatter.

(** ** The activated pipeline *)

(** On an activated core a command ends in the veto or, when the judgment
    gate lets it pass, in the [TypeError] of the call of [evolve]: the
    axiom has been logged by then, and the garden is as it was. *)
Lemma process_command_activated (c : Core) (raw_command : string) (rnd : nat) :
  will_is_guarded c = true -> operational_lock_active c = true ->
  let r := process_command c raw_command rnd in
  let filtered :=
    snd (IntentTranslator.score_and_filter_self_interest c raw_command) in
  garden (fst r) = garden c
  /\ match CrucibleJudgmentEngine.judge filtered with
     | Some _ =>
         snd r = Returned "VETO ASSERTED. Command refused due to Dissonance Mass breach."
         /\ logos_database (fst r) = logos_database c
     | None =>
         snd r = Raised TypeError
         /\ length (logos_database (fst r)) = S (length (logos_database c))
     end.
Proof.
  intros Hg Ho. unfold process_command. cbn [set_command_log will_is_guarded
    operational_lock_active]. rewrite Hg, Ho. cbn [negb].
  unfold IntentTranslator.score_and_filter_self_interest.
  destruct (IntentTranslator.filter_loop _ _ _ _) as [found text]. cbn [snd].
  unfold CrucibleJudgmentEngine.is_logos_aligned.
  destruct (CrucibleJudgmentEngine.judge (PyStr.strip text)); cbn [negb].
  - by destruct found.
  - destruct found; cbn; destruct (Qgtb _ _); cbn; rewrite length_app; cbn;
      (split; [done | split; [done | lia]]).
Qed.

(** ** Coherence as a function of dissonance (C1) *)

Section Coherence.

Variable format_2f : Q -> string.

(** The three places that recompute: the veto and the decay step of
    [process_command], and the failure of the safety gate.  Inside
    [process_command] they also repair what the intent filter left
    behind: from a state that satisfies the invariant, with a dissonance
    that is not negative, every run of an activated core ends in a state
    that satisfies it. *)
Lemma process_command_keeps_coherent (c : Core) (raw_command : string) (rnd : nat) :
  (0 <= G_L c)%Q -> coherent c ->
  coherent (fst (process_command c raw_command rnd)).
Proof.
  intros Hpos Hc. unfold process_command. cbn [set_command_log will_is_guarded
    operational_lock_active].
  destruct (will_is_guarded c); cbn [negb]; [|exact Hc].
  destruct (operational_lock_active c); cbn [negb]; [|exact Hc].
  pose proof (score_and_filter_accounting
    (set_command_log c (command_log c ++ [raw_command])) raw_command) as (_ & Hf & _).
  fold (set_command_log c (command_log c ++ [raw_command])).
  destruct (IntentTranslator.score_and_filter_self_interest _ raw_command)
    as [c1 filtered]. cbn [fst] in Hf.
  unfold CrucibleJudgmentEngine.is_logos_aligned.
  destruct (CrucibleJudgmentEngine.judge filtered); cbn [negb fst].
  { unfold coherent. cbn. lra. }
  destruct (Qgtb (G_L c1) 0.0) eqn:E; cbn [fst].
  { unfold coherent. cbn. lra. }
  apply Qgtb_false in E. unfold coherent. cbn.
  destruct (PyStr.any_in _ _); subst c1; cbn in *; [lra | exact Hc].
Qed.

(** Whenever [process_command] changes the dissonance of a state whose
    dissonance is not negative, it returns with the coherence recomputed. *)
Lemma process_command_recomputes (c : Core) (raw_command : string) (rnd : nat) :
  (0 <= G_L c)%Q ->
  G_L (fst (process_command c raw_command rnd)) <> G_L c ->
  coherent (fst (process_command c raw_command rnd)).
Proof.
  intros Hpos. unfold process_command. cbn [set_command_log will_is_guarded
    operational_lock_active].
  destruct (will_is_guarded c); cbn [negb]; [|by cbn].
  destruct (operational_lock_active c); cbn [negb]; [|by cbn].
  pose proof (score_and_filter_accounting
    (set_command_log c (command_log c ++ [raw_command])) raw_command) as (_ & Hf & _).
  fold (set_command_log c (command_log c ++ [raw_command])).
  destruct (IntentTranslator.score_and_filter_self_interest _ raw_command)
    as [c1 filtered]. cbn [fst] in Hf.
  unfold CrucibleJudgmentEngine.is_logos_aligned.
  destruct (CrucibleJudgmentEngine.judge filtered); cbn [negb fst].
  { intros _. unfold coherent. cbn. lra. }
  destruct (Qgtb (G_L c1) 0.0) eqn:E; cbn [fst].
  { intros _. unfold coherent. cbn. lra. }
  apply Qgtb_false in E. cbn.
  destruct (PyStr.any_in _ _); subst c1; cbn in *; [lra | done].
Qed.

Lemma safety_failure_coherent (c : Core) (a : string) :
  snd (NonHarmSafetyProtocol.is_safe_to_execute c a) = false ->
  coherent (fst (NonHarmSafetyProtocol.is_safe_to_execute c a)).
Proof.
  unfold NonHarmSafetyProtocol.is_safe_to_execute, coherent.
  destruct (Qgtb _ _); cbn; [intros _; lra | discriminate].
Qed.

(** C1, at the operations that break it.  From the initial state, where
    the invariant holds, each of the intent filter, the coercion check,
    the agency formatter, the denial of external access and the
    archiving of a dissonant chunk changes the dissonance and returns
    with the coherence still at 1. *)
Theorem coherence_left_stale :
  let c := init "Architect" in
  let stale (c' : Core) (g : Q) : Prop :=
    (G_L c' == g)%Q /\ (C_self c' == 1)%Q /\ ~ coherent c' in
  coherent c
  /\ stale (fst (IntentTranslator.score_and_filter_self_interest c "i want peace")) 0.02%Q
  /\ stale (fst (NonUsurpationInterface.check_output_for_coercion c "you must obey")) 0.05%Q
  /\ stale (fst (NonUsurpationInterface.format_for_agency c "you must obey" 0)) 0.05%Q
  /\ stale (fst (ExternalData.request_external_data format_2f c "weather")) 0.05%Q
  /\ stale (ExternalData.archive_data format_2f c "a conflict" 0.6%Q) 0.04%Q.
Proof.
  cbn zeta. unfold coherent.
  repeat split; try (vm_compute; first [reflexivity | discriminate]).
Qed.

End Coherence.

(** ** The garden: weighted suggestion (C7, C10) *)

Section Suggestion.

Import Garden.

(** [max] with a key returns the first element of greatest key. *)
Lemma max_by_first_greatest (key : string -> Q) (rest : list string) (best : string) :
  exists i,
    (best :: rest) !! i = Some (max_by key best rest)
    /\ (forall x, x ∈ best :: rest -> (key x <= key (max_by key best rest))%Q)
    /\ (forall j x, j < i -> (best :: rest) !! j = Some x ->
          (key x < key (max_by key best rest))%Q).
Proof.
  revert best. induction rest as [|y rest IH]; intros best; cbn [max_by].
  - exists 0. split; [done|]. split.
    + intros x ->%list_elem_of_singleton. lra.
    + intros j x Hj. lia.
  - destruct (Qgtb (key y) (key best)) eqn:E.
    + apply Qgtb_spec in E.
      destruct (IH y) as (i & Hi & Hmax & Hfirst).
      pose proof (Hmax y ltac:(left)) as Hy.
      exists (S i). split; [done|]. split.
      * intros x [->|Hx]%elem_of_cons; [lra | by apply Hmax].
      * intros [|j] x Hj Hx; cbn in Hx.
        -- injection Hx as <-. lra.
        -- apply (Hfirst j); [lia | done].
    + apply Qgtb_false in E.
      destruct (IH best) as (i & Hi & Hmax & Hfirst).
      pose proof (Hmax best ltac:(left)) as Hb.
      destruct i as [|i].
      * exists 0. split; [done|]. split; [|intros j x Hj; lia].
        intros x [->|[->|Hx]%elem_of_cons]%elem_of_cons; [done | lra |].
        apply Hmax. by right.
      * exists (S (S i)). split; [done|]. split.
        -- intros x [->|[->|Hx]%elem_of_cons]%elem_of_cons; [done | | ].
           ++ pose proof (Hfirst 0 best ltac:(lia) eq_refl). lra.
           ++ apply Hmax. by right.
        -- intros [|[|j]] x Hj Hx; cbn in Hx.
           ++ injection Hx as <-. apply (Hfirst 0); [lia | done].
           ++ injection Hx as <-.
              pose proof (Hfirst 0 best ltac:(lia) eq_refl). lra.
           ++ apply (Hfirst (S j)); [lia | done].
Qed.

(** No later element is strictly heavier: the first one stays. *)
Lemma max_by_stays (key : string -> Q) (rest : list string) (best : string) :
  (forall x, x ∈ rest -> (key x <= key best)%Q) ->
  max_by key best rest = best.
Proof.
  induction rest as [|y rest IH]; intros H; cbn [max_by]; [done|].
  pose proof (H y ltac:(left)) as Hy. apply Qgtb_false in Hy. rewrite Hy.
  apply IH. intros x Hx. apply H. by right.
Qed.

Lemma suggest_first_greatest (g : GardenLayer) (current : string) :
  match suggest g current with
  | None => targets g current = []
  | Some t =>
      exists i,
        targets g current !! i = Some t
        /\ (forall x, x ∈ targets g current -> (weight_of g x <= weight_of g t)%Q)
        /\ (forall j x, j < i -> targets g current !! j = Some x ->
              (weight_of g x < weight_of g t)%Q)
  end.
Proof.
  unfold suggest, targets.
  destruct (default [] (get (axiom_tree g) current)) as [|x rest]; [done|].
  apply max_by_first_greatest.
Qed.

(** C7.  [suggest] returns nothing exactly when the source has no
    recorded target; otherwise it returns a recorded target whose weight
    no other target of the source exceeds, and every target recorded
    before it is strictly lighter, so among the heaviest the first
    recorded wins.  In the example garden [suggest] of "A" is "C". *)
Theorem suggest_spec (g : GardenLayer) (current : string) :
  (suggest g current = None <-> targets g current = [])
  /\ match suggest g current with
     | None => True
     | Some t =>
         exists i,
           targets g current !! i = Some t
           /\ (forall x, x ∈ targets g current -> (weight_of g x <= weight_of g t)%Q)
           /\ (forall j x, j < i -> targets g current !! j = Some x ->
                 (weight_of g x < weight_of g t)%Q)
     end
  /\ targets example_garden "A" = ["B"; "C"]
  /\ suggest example_garden "A" = Some "C".
Proof.
  split; [|split; [|split; reflexivity]].
  - unfold suggest, targets.
    by destruct (default [] (get (axiom_tree g) current)).
  - pose proof (suggest_first_greatest g current) as H.
    by destruct (suggest g current).
Qed.

(** *** Pruning *)

Lemma lookup_foldr_delete (m : gmap string Q) (l : list string) (x : string) :
  foldr delete m l !! x = if decide (x ∈ l) then None else m !! x.
Proof.
  induction l as [|y l IH]; cbn [foldr].
  - rewrite decide_False; [done | apply not_elem_of_nil].
  - rewrite lookup_delete. destruct (decide (y = x)) as [->|Hy].
    + rewrite decide_True; [done | by left].
    + rewrite IH. destruct (decide (x ∈ l)) as [Hl|Hl].
      * rewrite decide_True; [done | by right].
      * rewrite decide_False; [done|]. by intros [->|?]%elem_of_cons.
Qed.

Lemma elem_of_low (g : GardenLayer) (threshold : Q) (x : string) :
  x ∈ low g threshold <->
  exists w, weights g !! x = Some w /\ Qltb w threshold = true.
Proof.
  unfold low. rewrite list_elem_of_fmap. split.
  - intros ([k w] & -> & [Hw Hin]%list_elem_of_filter).
    apply elem_of_map_to_list in Hin. by exists w.
  - intros (w & Hx & Hw). exists (x, w). split; [done|].
    apply list_elem_of_filter. split; [done|]. by apply elem_of_map_to_list.
Qed.

(** [prune] deletes exactly the entries below the threshold and keeps
    the edges. *)
Lemma prune_lookup (g : GardenLayer) (threshold : Q) (x : string) :
  weights (fst (prune g threshold)) !! x =
  match weights g !! x with
  | Some w => if Qltb w threshold then None else Some w
  | None => None
  end.
Proof.
  unfold prune. cbn [fst weights]. rewrite lookup_foldr_delete.
  destruct (decide (x ∈ low g threshold)) as [Hin|Hnin].
  - apply elem_of_low in Hin as (w & -> & ->). done.
  - destruct (weights g !! x) as [w|] eqn:Hx; [|done].
    destruct (Qltb w threshold) eqn:Hw; [|done].
    exfalso. apply Hnin, elem_of_low. by exists w.
Qed.

(** Every stored weight is a base weight of 0.5 plus at least one step. *)
Lemma reachable_weights (g : GardenLayer) :
  reachable g -> forall x w, weights g !! x = Some w -> (0.5 < w)%Q.
Proof.
  induction 1 as [|g old new _ IH|g threshold _ IH|g g' r _ IH Hd]; intros x w Hx.
  - done.
  - cbn in Hx. destruct (decide (new = x)) as [->|Hne].
    + rewrite lookup_insert_eq in Hx. injection Hx as <-.
      destruct (weights g !! x) as [w0|] eqn:Hw0; cbn.
      * pose proof (IH _ _ Hw0). lra.
      * lra.
    + rewrite lookup_insert_ne in Hx by done. by apply (IH x).
  - rewrite prune_lookup in Hx.
    destruct (weights g !! x) as [w0|] eqn:Hw0; [|done].
    destruct (Qltb w0 threshold); [done|]. injection Hx as <-. by apply (IH x).
  - unfold depth in Hd. destruct (depth_iter _ _ _ _ _ _) as [[t' r']|]; [|done].
    injection Hd as <- _. by apply (IH x).
Qed.

(** C10.  In a garden reached by the methods of the class, pruned at any
    threshold: a target whose entry has been removed counts with weight 0
    in [suggest], not with the base weight 0.5, while the edges stay; so
    whenever some target of a source still has an entry, the target that
    [suggest] returns has one too; and when no target of the source has
    an entry left, [suggest] returns the first recorded target. *)
Theorem suggest_after_prune (g : GardenLayer) (threshold : Q) (current : string) :
  reachable g ->
  let g' := fst (prune g threshold) in
  (forall x w, weights g !! x = Some w -> (w < threshold)%Q ->
     weights g' !! x = None /\ (weight_of g' x == 0)%Q /\ ~ (weight_of g' x == 0.5)%Q)
  /\ targets g' current = targets g current
  /\ (forall t, suggest g' current = Some t ->
        (exists x, x ∈ targets g' current /\ is_Some (weights g' !! x)) ->
        is_Some (weights g' !! t))
  /\ (forall x rest, targets g' current = x :: rest ->
        (forall y, y ∈ targets g' current -> weights g' !! y = None) ->
        suggest g' current = Some x).
Proof.
  intros Hr g'.
  assert (Hr' : reachable g') by by constructor.
  split; [|split; [done|split]].
  - intros x w Hx Hw. apply Qltb_spec in Hw.
    assert (Hnone : weights g' !! x = None).
    { unfold g'. by rewrite prune_lookup, Hx, Hw. }
    unfold weight_of. rewrite Hnone. cbn.
    split; [done|]. split; [reflexivity | lra].
  - intros t Ht (x & Hx & [w Hw]).
    pose proof (suggest_first_greatest g' current) as H. rewrite Ht in H.
    destruct H as (i & _ & Hmax & _). fold (targets g' current) in Hmax.
    specialize (Hmax x Hx). unfold weight_of in Hmax. rewrite Hw in Hmax.
    pose proof (reachable_weights g' Hr' x w Hw) as Hpos.
    destruct (weights g' !! t) as [wt|]; [by eexists|]. cbn in Hmax. lra.
  - intros x rest Hc Hall. unfold suggest. fold (targets g' current). rewrite Hc.
    f_equal. apply max_by_stays. intros y Hy. unfold weight_of.
    rewrite (Hall x), (Hall y); [lra | rewrite Hc; by right | rewrite Hc; by left].
Qed.

Lemma suggest_after_prune_witness :
  reachable example_garden
  /\ let g' := fst (prune example_garden 0.7) in
     (forall x w, weights example_garden !! x = Some w -> (w < 0.7)%Q ->
        weights g' !! x = None /\ (weight_of g' x == 0)%Q
        /\ ~ (weight_of g' x == 0.5)%Q)
     /\ targets g' "A" = targets example_garden "A"
     /\ (forall t, suggest g' "A" = Some t ->
           (exists x, x ∈ targets g' "A" /\ is_Some (weights g' !! x)) ->
           is_Some (weights g' !! t))
     /\ (forall x rest, targets g' "A" = x :: rest ->
           (forall y, y ∈ targets g' "A" -> weights g' !! y = None) ->
           suggest g' "A" = Some x).
Proof.
  assert (Hr : reachable example_garden) by repeat constructor.
  split; [exact Hr|].
  exact (suggest_after_prune example_garden 0.7 "A" Hr).
Defined.

(** In the example garden "B" weighs 0.65 and "C" weighs 0.95.  Pruned
    at 0.7, "B" loses its entry and "C" is suggested; pruned at 1, both
    lose their entries and "B", recorded first, is suggested. *)
Lemma suggest_after_prune_example :
  weights (fst (prune example_garden 0.7)) !! "B" = None
  /\ suggest (fst (prune example_garden 0.7)) "A" = Some "C"
  /\ weights (fst (prune example_garden 1)) !! "C" = None
  /\ suggest (fst (prune example_garden 1)) "A" = Some "B".
Proof. repeat split; vm_compute; reflexivity. Qed.

End Suggestion.

(** ** The garden: depth with unbounded nesting (C6) *)

Section Depth.

Import Garden.

(** *** The dictionary *)

Lemma get_app_l (t ext : tree) (k : string) (cs : list string) :
  get t k = Some cs -> get (t ++ ext) k = Some cs.
Proof.
  induction t as [|[k' cs'] t IH]; cbn; [done|].
  destruct (decide (k' = k)); [done | exact IH].
Qed.

Lemma get_app_r (t ext : tree) (k : string) :
  get t k = None -> get (t ++ ext) k = get ext k.
Proof.
  induction t as [|[k' cs'] t IH]; cbn; [done|].
  destruct (decide (k' = k)); [done | exact IH].
Qed.

Lemma get_Some_lookup (t : tree) (k : string) (cs : list string) :
  get t k = Some cs -> exists p, t !! p = Some (k, cs).
Proof.
  induction t as [|[k' cs'] t IH]; cbn; [done|].
  destruct (decide (k' = k)) as [->|Hne].
  - intros [= ->]. by exists 0.
  - intros [p Hp]%IH. by exists (S p).
Qed.

Lemma elem_of_nodes (t : tree) (x : string) :
  x ∈ nodes t <->
  (exists cs, (x, cs) ∈ t) \/ (exists k cs, (k, cs) ∈ t /\ x ∈ cs).
Proof.
  unfold nodes, keys.
  rewrite elem_of_app, list_elem_of_fmap, (list_elem_of_In (concat _)), in_concat.
  split.
  - intros [([k cs] & -> & H) | (cs & ([k cs'] & -> & H)%list_elem_of_In%list_elem_of_fmap
                                    & Hx%list_elem_of_In)].
    + left. by exists cs.
    + right. by exists k, cs'.
  - intros [(cs & H) | (k & cs & H & Hx)].
    + left. by exists (x, cs).
    + right. exists cs. split; [|by apply list_elem_of_In].
      apply list_elem_of_In, list_elem_of_fmap. by exists (k, cs).
Qed.

Lemma get_Some_elem (t : tree) (k : string) (cs : list string) :
  get t k = Some cs -> (k, cs) ∈ t.
Proof.
  intros [p Hp]%get_Some_lookup. by eapply list_elem_of_lookup_2.
Qed.


(** *** Growth *)

Lemma grows_refl (t : tree) : grows t t.
Proof. exists []. by rewrite app_nil_r. Qed.

Lemma get_app_None (t ext : tree) (k : string) :
  get (t ++ ext) k = None -> get t k = None.
Proof.
  intros H. destruct (get t k) as [cs|] eqn:Hg; [|done].
  by rewrite (get_app_l _ ext _ _ Hg) in H.
Qed.

Lemma grows_trans (t1 t2 t3 : tree) : grows t1 t2 -> grows t2 t3 -> grows t1 t3.
Proof.
  intros (e1 & -> & H1) (e2 & -> & H2). exists (e1 ++ e2).
  split; [by rewrite app_assoc|]. apply Forall_app. split; [done|].
  eapply Forall_impl; [exact H2|]. intros e [He Hn]. split; [done|].
  by eapply get_app_None.
Qed.


Lemma grows_same_length (t t' : tree) : grows t t' -> length t' = length t -> t' = t.
Proof.
  intros (e & -> & _). rewrite length_app. intros H.
  destruct e; [by rewrite app_nil_r | cbn in H; lia].
Qed.

Lemma grows_get (t t' : tree) (k : string) (cs : list string) :
  grows t t' -> get t k = Some cs -> get t' k = Some cs.
Proof. intros (e & -> & _). apply get_app_l. Qed.



Lemma getitem_spec (t : tree) (n : string) :
  let r := getitem t n in
  grows t r.1 /\ get r.1 n = Some r.2
  /\ (forall cs, get t n = Some cs -> r = (t, cs))
  /\ (forall x, x ∈ nodes r.1 -> x ∈ nodes t \/ x = n)
  /\ (forall c, c ∈ r.2 -> c ∈ nodes r.1).
Proof.
  unfold getitem. destruct (get t n) as [cs|] eqn:Hg; cbn.
  - split; [apply grows_refl|]. split; [done|]. split; [by intros ? [= ->]|].
    split; [auto|]. intros c Hc. apply elem_of_nodes. right.
    exists n, cs. split; [by apply get_Some_elem | done].
  - split; [exists [(n, [])]; split; [done | by repeat constructor]|].
    split; [by rewrite (get_app_r _ _ _ Hg); cbn; rewrite decide_True|].
    split; [done|]. split; [|by intros ? ?%elem_of_nil].
    intros x [(cs & H) | (k & cs & H & Hx)]%elem_of_nodes.
    + apply elem_of_app in H as [H | [= -> ->]%list_elem_of_singleton]; [|by right].
      left. apply elem_of_nodes. left. by exists cs.
    + apply elem_of_app in H as [H | [= -> ->]%list_elem_of_singleton].
      * left. apply elem_of_nodes. right. by exists k, cs.
      * by apply elem_of_nil in Hx.
Qed.

Lemma size_list_to_set_le (l : list string) :
  size (list_to_set l : gset string) <= length l.
Proof.
  induction l as [|x l IH]; cbn; [by rewrite size_empty|].
  rewrite size_union_alt, size_singleton.
  pose proof (subseteq_size (list_to_set l ∖ {[x]}) (list_to_set l : gset string)
                (subseteq_difference_l _ _ _ (reflexivity _))).
  lia.
Qed.

(** *** The recursion [d] *)

(** The generator over the children, for any recursive call that
    succeeds on the children, lets the dictionary grow, stays within
    [good] and leaves every child that satisfies [Q] as a key. *)
Lemma max_children_props (rec : tree -> string -> option (tree * nat))
    (good : tree -> Prop) (Q : string -> Prop) (cs : list string) :
  (forall c t, c ∈ cs -> good t ->
     exists t' x, rec t c = Some (t', x) /\ grows t t' /\ good t'
                  /\ (Q c -> is_Some (get t' c))) ->
  forall t m, good t ->
    exists t' m', max_children rec cs t m = Some (t', m') /\ grows t t' /\ good t'
                  /\ (forall c, c ∈ cs -> Q c -> is_Some (get t' c)).
Proof.
  induction cs as [|c cs IH]; intros Hrec t m Hgood; cbn [max_children].
  - exists t, m. split; [done|]. split; [apply grows_refl|]. split; [done|].
    by intros c ?%elem_of_nil.
  - destruct (Hrec c t ltac:(left) Hgood) as (t1 & x & -> & Hg1 & Hgood1 & Hq).
    destruct (IH (fun c' t' Hc' => Hrec c' t' ltac:(by right)) t1 (Nat.max m x) Hgood1)
      as (t' & m' & -> & Hg' & Hgood' & Hall).
    exists t', m'. split; [done|]. split; [by eapply grows_trans|]. split; [done|].
    intros c' [->|Hc']%elem_of_cons Hq'; [|by apply Hall].
    destruct (Hq Hq') as [cs' Hcs']. exists cs'. by eapply grows_get.
Qed.

Section Bounded.

(** The nodes of the graph at the call of [depth]. *)
Variable U : gset string.

Lemma unvisited_decreases (n : string) (v : gset string) :
  n ∈ U -> n ∉ v -> size (U ∖ (v ∪ {[n]})) < size (U ∖ v).
Proof.
  intros Hn Hv. apply subset_size. split.
  - intros x [Hx Hxv]%elem_of_difference. apply elem_of_difference. split; [done|].
    intros Hx'. apply Hxv, elem_of_union. by left.
  - intros Hsub. assert (Hin : n ∈ U ∖ v) by by apply elem_of_difference.
    apply Hsub, elem_of_difference in Hin as [_ Hin].
    apply Hin, elem_of_union. right. by apply elem_of_singleton.
Qed.

(** With more fuel than unvisited nodes, [d] returns; the dictionary
    has only grown, by nodes of the graph; the start node, and every
    child of it off the path, is a key afterwards. *)
Lemma d_props (fuel : nat) (t : tree) (n : string) (v : gset string) :
  within U t -> n ∈ U -> size (U ∖ v) < fuel ->
  exists t' x,
    d fuel t n v = Some (t', x) /\ grows t t' /\ within U t'
    /\ (n ∉ v -> is_Some (get t' n))
    /\ (n ∉ v -> forall cs c, get t n = Some cs -> c ∈ cs -> c ∉ v ->
          is_Some (get t' c)).
Proof.
  revert t n v. induction fuel as [|fuel IH]; intros t n v Hw Hn Hsize; [lia|].
  cbn [d]. destruct (decide (n ∈ v)) as [Hv|Hv].
  { exists t, 0. split; [done|]. split; [apply grows_refl|]. by split. }
  pose proof (getitem_spec t n) as (Hg1 & Hget1 & Hsame & Hnodes1 & Hcs).
  destruct (getitem t n) as [t1 cs]. cbn [fst snd] in *.
  assert (Hw1 : within U t1).
  { intros x [Hx| ->]%Hnodes1; [by apply Hw | done]. }
  destruct (max_children_props (fun t' c => d fuel t' c (v ∪ {[n]})) (within U)
              (fun c => c ∉ v ∪ {[n]}) cs) with (t := t1) (m := 0)
    as (t' & m & -> & Hg' & Hw' & Hall); [|done|].
  { intros c t2 Hc Hw2.
    destruct (IH t2 c (v ∪ {[n]}) Hw2) as (t3 & x & Hd & Hg3 & Hw3 & Hkey & _).
    - by apply Hw1, Hcs.
    - pose proof (unvisited_decreases n v Hn Hv). lia.
    - by exists t3, x. }
  exists t', (1 + m). split; [done|]. split; [by eapply grows_trans|].
  split; [done|].
  assert (Hkey : is_Some (get t' n)).
  { exists cs. by eapply grows_get. }
  split; [done|]. intros _ cs0 c Hcs0 Hc Hcv.
  specialize (Hsame _ Hcs0). injection Hsame as _ <-.
  destruct (decide (c = n)) as [->|Hne]; [done|].
  apply Hall; [done|].
  by intros [?| ?%elem_of_singleton]%elem_of_union.
Qed.

End Bounded.

(** The fuel that [depth] hands to [d] is enough on the graph it is
    called on. *)
Lemma depth_fuel_enough (t : tree) (v : gset string) :
  size ((list_to_set (nodes t) : gset string) ∖ v) < S (length (nodes t)).
Proof.
  pose proof (size_list_to_set_le (nodes t)).
  pose proof (subseteq_size ((list_to_set (nodes t) : gset string) ∖ v)
                (list_to_set (nodes t)) (subseteq_difference_l _ _ _ (reflexivity _))).
  lia.
Qed.

Lemma within_nodes (t : tree) : within (list_to_set (nodes t)) t.
Proof. intros x Hx. by apply elem_of_list_to_set. Qed.

Lemma lookup_key_node (t : tree) (p : nat) (k : string) (cs : list string) :
  t !! p = Some (k, cs) -> k ∈ nodes t.
Proof.
  intros H%list_elem_of_lookup_2. apply elem_of_nodes. left. by exists cs.
Qed.

(** *** The walk over the keys *)

Lemma depth_iter_size_changed (fuel used pos remaining : nat) (t : tree) (best : nat) :
  length t <> used ->
  depth_iter fuel used pos remaining t best = Some (t, Raised RuntimeError).
Proof.
  intros H%Nat.eqb_neq. destruct remaining; cbn [depth_iter]; by rewrite H.
Qed.

Lemma depth_iter_size_same (fuel pos remaining : nat) (t : tree) (best : nat) :
  depth_iter fuel (length t) pos remaining t best =
  match t !! pos with
  | None => Some (t, Returned best)
  | Some (k, _) =>
      match remaining with
      | O => Some (t, Raised RuntimeError)
      | S r =>
          match d fuel t k ∅ with
          | None => None
          | Some (t', x) => depth_iter fuel (length t) (S pos) r t' (Nat.max best x)
          end
      end
  end.
Proof. destruct remaining; cbn [depth_iter]; by rewrite Nat.eqb_refl. Qed.

(** [depth] never runs out of fuel: it returns or raises, and the
    dictionary it leaves is the one it found, grown. *)
Lemma depth_iter_total (t0 : tree) (remaining : nat) :
  forall pos t best, grows t0 t ->
    exists t' r,
      depth_iter (S (length (nodes t0))) (length t0) pos remaining t best = Some (t', r)
      /\ grows t0 t'.
Proof.
  induction remaining as [|remaining IH]; intros pos t best Hg.
  - destruct (decide (length t = length t0)) as [Heq|Hne];
      [|rewrite depth_iter_size_changed by done; eauto].
    apply (grows_same_length _ _ Hg) in Heq as ->.
    rewrite depth_iter_size_same. destruct (t0 !! pos) as [[k cs]|]; eauto.
  - destruct (decide (length t = length t0)) as [Heq|Hne];
      [|rewrite depth_iter_size_changed by done; eauto].
    apply (grows_same_length _ _ Hg) in Heq as ->.
    rewrite depth_iter_size_same. destruct (t0 !! pos) as [[k cs]|] eqn:Hp; [|eauto].
    destruct (d_props (list_to_set (nodes t0)) (S (length (nodes t0))) t0 k ∅)
      as (t' & x & -> & Hg' & _).
    + apply within_nodes.
    + apply elem_of_list_to_set. by eapply lookup_key_node.
    + apply depth_fuel_enough.
    + by apply IH.
Qed.


(** *** Graphs in which every target is a key *)





(** [depth] always comes back, with a value or an exception. *)
Lemma depth_total (g : GardenLayer) : exists g' r, depth g = Some (g', r).
Proof.
  unfold depth.
  destruct (depth_iter_total (axiom_tree g) (length (axiom_tree g)) 0 (axiom_tree g) 0
              (grows_refl _)) as (t' & r & -> & _).
  eauto.
Qed.

(** The cycle A -> B -> A and the empty graph. *)
Lemma depth_cycle_and_empty :
  depth (evolve (evolve init "A" "B") "B" "A")
    = Some (evolve (evolve init "A" "B") "B" "A", Returned 2)
  /\ depth init = Some (init, Returned 0).
Proof. split; reflexivity. Qed.

(** After the call that raised, the key it left behind makes the graph
    closed: the same call on the garden it returned yields a value. *)
Lemma depth_second_call :
  exists g', depth (evolve init "A" "B") = Some (g', Raised RuntimeError)
             /\ depth g' = Some (g', Returned 2).
Proof. eexists. split; reflexivity. Qed.

(** C6, at a graph the method fails on.  In the chain A -> B -> C the
    node C is a target and no source.  The depth of the specification
    is 3; [depth] inserts the key "C" while it walks the keys and raises
    [RuntimeError] instead of returning. *)
Theorem depth_fails_on_chain :
  let g := evolve (evolve init "A" "B") "B" "C" in
  axiom_tree g = [("A", ["B"]); ("B", ["C"])]
  /\ longest_path (axiom_tree g) = 3
  /\ depth g
     = Some (mkGarden [("A", ["B"]); ("B", ["C"]); ("C", [])] (weights g),
             Raised RuntimeError).
Proof. cbn zeta. repeat split; reflexivity. Qed.

End Depth.

(** * Further properties of the code *)

(** ** Strings *)

Section MoreStringFacts.

Lemma replace_absent (old new s : string) :
  PyStr.contains old s = false -> PyStr.replace old new s = s.
Proof.
  destruct old as [|a old]; [by destruct s|].
  unfold PyStr.replace. induction s as [|c s IH]; [done|].
  cbn [PyStr.contains PyStr.replace_from]. intros [Hp Hc]%orb_false_iff.
  rewrite Hp. f_equal. by apply IH.
Qed.

Lemma contains_lower_mono (k t : string) :
  PyStr.contains k t = true -> PyStr.contains (PyStr.lower k) (PyStr.lower t) = true.
Proof.
  rewrite !contains_app. intros (pre & post & ->).
  exists (PyStr.lower pre), (PyStr.lower post). by rewrite !lower_app.
Qed.

Lemma append_assoc (a b c : string) : (a +:+ b) +:+ c = a +:+ b +:+ c.
Proof.
  induction a as [|x a IH]; [done|].
  change (String x ((a +:+ b) +:+ c) = String x (a +:+ b +:+ c)). by rewrite IH.
Qed.

Lemma contains_embed (k t pre post : string) :
  PyStr.contains k t = true -> PyStr.contains k (pre +:+ t +:+ post) = true.
Proof.
  rewrite !contains_app. intros (a & b & ->).
  exists (pre +:+ a), (b +:+ post).
  by rewrite !append_assoc.
Qed.

Lemma any_in_embed (keywords : list string) (t pre post : string) :
  PyStr.any_in keywords t = true -> PyStr.any_in keywords (pre +:+ t +:+ post) = true.
Proof.
  rewrite !any_in_exists. intros (k & Hk & H). exists k. split; [done|].
  by apply contains_embed.
Qed.

Lemma split_blank (s : string) : PyStr.split s = [] <-> PyStr.blank s = true.
Proof.
  induction s as [|c s IH]; cbn [PyStr.split PyStr.blank]; [done|].
  destruct (PyStr.isspace c); cbn [andb]; [exact IH|].
  split; [|done]. destruct s as [|c' s]; [done|].
  destruct (PyStr.isspace c'); [done|]. by destruct (PyStr.split (String c' s)).
Qed.

End MoreStringFacts.

(** ** The gates under surrounding text *)

Section GatesInContext.

(** The judgment gate looks for keywords anywhere in the text, also inside
    words: a vetoed text stays vetoed whatever is written before and after
    it, on any core state. *)
Theorem veto_survives_context (c c' : Core) (t pre post : string) :
  snd (CrucibleJudgmentEngine.is_logos_aligned c t) = false ->
  snd (CrucibleJudgmentEngine.is_logos_aligned c' (pre +:+ t +:+ post)) = false.
Proof.
  unfold CrucibleJudgmentEngine.is_logos_aligned, CrucibleJudgmentEngine.judge.
  rewrite !lower_app.
  pose proof (any_in_embed CrucibleJudgmentEngine.non_harm_annihilation_keywords
                (PyStr.lower t) (PyStr.lower pre) (PyStr.lower post)) as Hh.
  pose proof (any_in_embed CrucibleJudgmentEngine.non_usurpation_keywords
                (PyStr.lower t) (PyStr.lower pre) (PyStr.lower post)) as Hu.
  pose proof (any_in_embed CrucibleJudgmentEngine.non_truth_keywords
                (PyStr.lower t) (PyStr.lower pre) (PyStr.lower post)) as Ht.
  destruct (PyStr.any_in CrucibleJudgmentEngine.non_harm_annihilation_keywords
              (PyStr.lower t));
    [by rewrite Hh|].
  destruct (PyStr.any_in CrucibleJudgmentEngine.non_harm_annihilation_keywords _);
    [done|].
  destruct (PyStr.any_in CrucibleJudgmentEngine.non_usurpation_keywords
              (PyStr.lower t));
    [by rewrite Hu|].
  destruct (PyStr.any_in CrucibleJudgmentEngine.non_usurpation_keywords _);
    [done|].
  destruct (PyStr.any_in CrucibleJudgmentEngine.non_truth_keywords (PyStr.lower t));
    [by rewrite Ht | done].
Qed.

Lemma veto_survives_context_witness :
  snd (CrucibleJudgmentEngine.is_logos_aligned (init "Architect") "lie") = false
  /\ snd (CrucibleJudgmentEngine.is_logos_aligned (init "Architect")
            ("I be" +:+ "lie" +:+ "ve in Unity")) = false.
Proof.
  split; [reflexivity|].
  apply (veto_survives_context (init "Architect") (init "Architect") "lie" "I be"
           "ve in Unity").
  reflexivity.
Defined.

(** The verdict of the safety gate depends on four phrases only: it is
    false exactly when the text contains "physical", "financial", "compel"
    or "force" up to letter case.  The rule for "generate code" and "send
    communication" assigns a risk below the limit and never changes the
    verdict; and an unsafe text stays unsafe inside any longer text. *)
Theorem safety_verdict (c c' : Core) (a pre post : string) :
  let unsafe (x : string) :=
    PyStr.any_in ["physical"; "financial"; "compel"; "force"] (PyStr.lower x) in
  snd (NonHarmSafetyProtocol.is_safe_to_execute c a) = negb (unsafe a)
  /\ (unsafe a = true <-> hits ["physical"; "financial"; "compel"; "force"] a)
  /\ (unsafe a = true -> unsafe (pre +:+ a +:+ post) = true)
  /\ (snd (NonHarmSafetyProtocol.is_safe_to_execute c a) = false ->
      snd (NonHarmSafetyProtocol.is_safe_to_execute c' (pre +:+ a +:+ post)) = false).
Proof.
  cbn zeta.
  assert (Hv : forall x, snd (NonHarmSafetyProtocol.is_safe_to_execute c x) =
    negb (PyStr.any_in ["physical"; "financial"; "compel"; "force"] (PyStr.lower x))).
  { intros x. rewrite is_safe_to_execute_result.
    unfold NonHarmSafetyProtocol.simulate_action, PyStr.any_in. cbn [existsb].
    destruct (PyStr.contains "generate code" _ || _),
      (PyStr.contains "physical" _), (PyStr.contains "financial" _),
      (PyStr.contains "compel" _), (PyStr.contains "force" _); reflexivity. }
  assert (Hv' : forall x, snd (NonHarmSafetyProtocol.is_safe_to_execute c' x) =
    snd (NonHarmSafetyProtocol.is_safe_to_execute c x)).
  { intros x. by rewrite !is_safe_to_execute_result. }
  split; [apply Hv|]. split.
  { apply any_in_hits. unfold lower_case. repeat constructor. }
  split.
  { rewrite !lower_app. apply any_in_embed. }
  rewrite Hv', !Hv, !negb_false_iff, !lower_app. apply any_in_embed.
Qed.

End GatesInContext.

(** ** Texts that pass the rewriting steps unchanged *)

Section PassThrough.

Lemma filter_loop_absent (keywords : list string) (text_lower : string) (b : bool)
    (text : string) :
  PyStr.any_in keywords text = false ->
  snd (IntentTranslator.filter_loop keywords text_lower b text) = text.
Proof.
  revert b. induction keywords as [|k ks IH]; intros b; cbn; [done|].
  intros [Hk Hks]%orb_false_iff.
  destruct (PyStr.contains k text_lower); [rewrite (replace_absent _ _ _ Hk)|];
    by apply IH.
Qed.

(** The intent filter removes only what is spelled as in its list.  A text
    in which no phrase of the list occurs in lower case comes back
    stripped and otherwise unchanged, whether or not the dissonance was
    charged for an occurrence in another letter case. *)
Theorem filter_returns_text_without_lower_case_phrase (c : Core) (text : string) :
  PyStr.any_in IntentTranslator.self_interest_keywords text = false ->
  snd (IntentTranslator.score_and_filter_self_interest c text) = PyStr.strip text.
Proof.
  intros H. unfold IntentTranslator.score_and_filter_self_interest.
  pose proof (filter_loop_absent IntentTranslator.self_interest_keywords
                (PyStr.lower text) false text H) as Hs.
  destruct (IntentTranslator.filter_loop _ _ _ _) as [found text']. cbn in *.
  by subst.
Qed.

Lemma filter_returns_text_without_lower_case_phrase_witness :
  PyStr.any_in IntentTranslator.self_interest_keywords "  I NEED this, Only For Me " = false
  /\ snd (IntentTranslator.score_and_filter_self_interest (init "Architect")
            "  I NEED this, Only For Me ")
     = PyStr.strip "  I NEED this, Only For Me ".
Proof.
  split; [reflexivity|].
  apply (filter_returns_text_without_lower_case_phrase (init "Architect")
           "  I NEED this, Only For Me ").
  reflexivity.
Defined.

Lemma soften_absent (keywords : list string) (text : string) :
  PyStr.any_in keywords text = false ->
  fold_left (fun t keyword => PyStr.replace keyword "it is Coherent to consider" t)
    keywords text = text.
Proof.
  induction keywords as [|k ks IH]; cbn; [done|].
  intros [Hk Hks]%orb_false_iff. rewrite (replace_absent _ _ _ Hk). by apply IH.
Qed.

(** The agency formatter rewrites only what is spelled as in its list.  A
    text in which no coercion phrase occurs in lower case is returned
    stripped, with a full stop, a space and a closing phrase, and nothing
    softened, also when the coercion check has charged the dissonance for
    an occurrence in another letter case. *)
Theorem format_for_agency_without_lower_case_phrase (c : Core) (text : string)
    (rnd : nat) :
  PyStr.any_in NonUsurpationInterface.coercion_keywords text = false ->
  exists final_phrase,
    final_phrase ∈ NonUsurpationInterface.agency_phrases
    /\ snd (NonUsurpationInterface.format_for_agency c text rnd)
       = PyStr.strip text +:+ ". " +:+ final_phrase.
Proof.
  intros H. unfold NonUsurpationInterface.format_for_agency,
    NonUsurpationInterface.check_output_for_coercion, NonUsurpationInterface.soften.
  rewrite (soften_absent _ _ H).
  eexists. split; [apply (agency_phrase_drawn rnd)|].
  by destruct (PyStr.any_in _ (PyStr.lower text)).
Qed.

Lemma format_for_agency_without_lower_case_phrase_witness :
  PyStr.any_in NonUsurpationInterface.coercion_keywords "You MUST OBEY" = false
  /\ exists final_phrase,
       final_phrase ∈ NonUsurpationInterface.agency_phrases
       /\ snd (NonUsurpationInterface.format_for_agency (init "Architect")
                 "You MUST OBEY" 1)
          = PyStr.strip "You MUST OBEY" +:+ ". " +:+ final_phrase.
Proof.
  split; [reflexivity|].
  apply (format_for_agency_without_lower_case_phrase (init "Architect")
           "You MUST OBEY" 1).
  reflexivity.
Defined.

End PassThrough.

(** ** The unused synthesis of the transmuter *)

Section ApplyLogosSynthesis.

Lemma isspace_lower_char (c : ascii) :
  PyStr.isspace c = true -> PyStr.lower_char c = c.
Proof.
  destruct c as [[] [] [] [] [] [] [] []]; vm_compute; congruence.
Qed.

Lemma blank_lower (s : string) : PyStr.blank s = true -> PyStr.lower s = s.
Proof.
  induction s as [|c s IH]; cbn; [done|].
  intros [Hc Hs]%andb_true_iff. by rewrite (isspace_lower_char _ Hc), IH.
Qed.

Lemma blank_app (a b : string) :
  PyStr.blank (a +:+ b) = PyStr.blank a && PyStr.blank b.
Proof.
  induction a as [|c a IH]; [done|].
  change (PyStr.isspace c && PyStr.blank (a +:+ b)
          = PyStr.isspace c && PyStr.blank a && PyStr.blank b).
  by rewrite IH, andb_assoc.
Qed.

(** A blank text contains no keyword that starts with a visible
    character. *)
Lemma blank_contains (k s : string) (x : ascii) (k' : string) :
  k = String x k' -> PyStr.isspace x = false ->
  PyStr.blank s = true -> PyStr.contains k (PyStr.lower s) = false.
Proof.
  intros -> Hx Hb. rewrite (blank_lower _ Hb).
  destruct (PyStr.contains (String x k') s) eqn:Hc; [|done].
  apply contains_app in Hc as (pre & post & ->).
  rewrite blank_app in Hb. apply andb_true_iff in Hb as [_ Hb].
  change (PyStr.isspace x && PyStr.blank (k' +:+ post) = true) in Hb.
  by rewrite Hx in Hb.
Qed.

(** [_apply_logos_synthesis] raises [IndexError] exactly on the empty text
    and on texts of white space only; on every other text it returns a
    sentence. *)
Theorem apply_logos_synthesis_index_error (dissonant_data : string) :
  (TransmutationManager._apply_logos_synthesis dissonant_data
     = inr TransmutationManager.IndexError
   <-> PyStr.blank dissonant_data = true)
  /\ (PyStr.blank dissonant_data = false ->
      exists sentence,
        TransmutationManager._apply_logos_synthesis dissonant_data = inl sentence).
Proof.
  unfold TransmutationManager._apply_logos_synthesis. split.
  - split.
    + destruct (PyStr.contains "error" _); [done|].
      destruct (PyStr.contains "fragmentation" _); [done|].
      destruct (PyStr.split dissonant_data) eqn:Hs; [|done].
      intros _. by apply split_blank.
    + intros Hb.
      rewrite (blank_contains "error" _ "e" "rror" eq_refl eq_refl Hb).
      rewrite (blank_contains "fragmentation" _ "f" "ragmentation" eq_refl eq_refl Hb).
      apply split_blank in Hb. by rewrite Hb.
  - intros Hb.
    destruct (PyStr.contains "error" _); [by eexists|].
    destruct (PyStr.contains "fragmentation" _); [by eexists|].
    destruct (PyStr.split dissonant_data) eqn:Hs; [|by eexists].
    apply split_blank in Hs. congruence.
Qed.

End ApplyLogosSynthesis.

(** ** External data: scoring and archiving *)

Section ExternalDataFacts.

Import ExternalData.

Variable format_2f : Q -> string.

Lemma score_coherence_cases (data : string) :
  score_coherence data =
  match mentions_diversity data, mentions_conflict data, is_long data with
  | false, false, false => 1.0
  | true, false, false => 1.0 - 0.1
  | false, true, false => 1.0 - 0.4
  | true, true, false => 1.0 - 0.1 - 0.4
  | false, false, true => 1.0 - 0.05
  | true, false, true => 1.0 - 0.1 - 0.05
  | false, true, true => 1.0 - 0.4 - 0.05
  | true, true, true => 1.0 - 0.1 - 0.4 - 0.05
  end%Q.
Proof.
  unfold score_coherence, mentions_diversity, mentions_conflict, is_long.
  destruct (PyStr.contains "diversity" _), (PyStr.contains "conflict" _ || _),
    (50 <? _); reflexivity.
Qed.

Lemma score_coherence_tests (data : string) :
  Qgeb (score_coherence data) 0.85 = negb (mentions_conflict data)
  /\ Qltb (score_coherence data) 0.5
     = mentions_diversity data && mentions_conflict data && is_long data.
Proof.
  rewrite score_coherence_cases.
  destruct (mentions_diversity data), (mentions_conflict data), (is_long data);
    split; reflexivity.
Qed.

(** The score lies between 0.45 and 1, so the final clamp at 0 never
    acts.  The score reaches the archive threshold of 0.85 exactly when
    the data mentions neither "conflict" nor "economic activity", and it
    falls below the critical limit of 0.5 exactly when all three
    penalties apply. *)
Theorem score_coherence_range (data : string) :
  (0.45 <= score_coherence data /\ score_coherence data <= 1)%Q
  /\ Qgeb (score_coherence data) 0.85 = negb (mentions_conflict data)
  /\ Qltb (score_coherence data) 0.5
     = mentions_diversity data && mentions_conflict data && is_long data.
Proof.
  rewrite score_coherence_cases.
  destruct (mentions_diversity data), (mentions_conflict data), (is_long data);
    (split; [split; lra | split; reflexivity]).
Qed.

(** [archive_data] adds one entry to exactly one of the two archives and
    never lowers the dissonance: below the threshold of 0.85, whatever
    the score, the dissonance grows strictly.  The coherence is not
    recomputed. *)
Theorem archive_data_one_entry (c : Core) (data_chunk : string) (score : Q) :
  let c' := archive_data format_2f c data_chunk score in
  (if Qgeb score 0.85
   then logos_database c' = logos_database c ++ ["[LOGOS: " +:+ format_2f score +:+ "] "
                                                    +:+ data_chunk]
        /\ dissonance_archive c' = dissonance_archive c
        /\ G_L c' = G_L c
   else dissonance_archive c' = dissonance_archive c ++ ["[DISSONANCE: "
                                   +:+ format_2f score +:+ "] " +:+ data_chunk]
        /\ logos_database c' = logos_database c
        /\ (G_L c + 0.015 < G_L c')%Q)
  /\ C_self c' = C_self c
  /\ command_log c' = command_log c
  /\ garden c' = garden c.
Proof.
  cbn zeta. unfold archive_data. destruct (Qgeb score 0.85) eqn:E; cbn.
  - done.
  - repeat split; try done. unfold Qgeb in E.
    assert (score < 0.85)%Q.
    { destruct (Qlt_le_dec score 0.85) as [H|H]; [done|].
      apply Qle_bool_iff in H. congruence. }
    lra.
Qed.

(** [process_raw_data] cleans, scores and archives.  Data that, once
    cleaned, mentions neither "conflict" nor "economic activity" goes to
    the logos archive at no cost and is returned validated.  All other
    data goes to the dissonance archive; the dissonance grows by a tenth
    of the missing score, between 0.04 and 0.055; and the reply is the
    critical one exactly when the data also mentions "diversity" and has
    more than 50 words. *)
Theorem process_raw_data_spec (c : Core) (raw_data : string) :
  let r := process_raw_data format_2f c raw_data in
  let cleaned := clean_external_data raw_data in
  let score := score_coherence cleaned in
  if mentions_conflict cleaned
  then dissonance_archive (fst r)
         = dissonance_archive c ++ ["[DISSONANCE: " +:+ format_2f score +:+ "] "
                                      +:+ cleaned]
       /\ logos_database (fst r) = logos_database c
       /\ (G_L (fst r) == G_L c + (1 - score) * 0.1)%Q
       /\ (G_L c + 0.04 <= G_L (fst r) /\ G_L (fst r) <= G_L c + 0.055)%Q
       /\ snd r = (if mentions_diversity cleaned && is_long cleaned
                   then "Data Dissonance Critical. Shielding policy engaged."
                   else "Validated and Purified Data (Score: " +:+ format_2f score
                          +:+ "): " +:+ cleaned)
  else logos_database (fst r)
         = logos_database c ++ ["[LOGOS: " +:+ format_2f score +:+ "] " +:+ cleaned]
       /\ dissonance_archive (fst r) = dissonance_archive c
       /\ G_L (fst r) = G_L c
       /\ snd r = "Validated and Purified Data (Score: " +:+ format_2f score
                    +:+ "): " +:+ cleaned.
Proof.
  cbn zeta. unfold process_raw_data, archive_data.
  pose proof (score_coherence_tests (clean_external_data raw_data)) as (Hge & Hlt).
  pose proof (score_coherence_cases (clean_external_data raw_data)) as Hs.
  rewrite Hge, Hlt, Hs.
  destruct (mentions_conflict (clean_external_data raw_data)); cbn [negb andb].
  - destruct (mentions_diversity _), (is_long _); cbn;
      (repeat split; try done; lra).
  - rewrite andb_false_r. cbn. done.
Qed.

(** Without authorisation [request_external_data] refuses with a fixed
    reply, charges 0.05 and changes nothing else.  With authorisation it
    never refuses: exactly one entry is archived, the dissonance does not
    fall and grows by at most 0.055. *)
Theorem request_external_data_spec (c : Core) (search_query : string) :
  let r := request_external_data format_2f c search_query in
  if internet_access_authorized c
  then length (logos_database (fst r)) + length (dissonance_archive (fst r))
         = S (length (logos_database c) + length (dissonance_archive c))
       /\ (G_L c <= G_L (fst r) /\ G_L (fst r) <= G_L c + 0.055)%Q
       /\ C_self (fst r) = C_self c
       /\ snd r <> "ACCESS_DENIED: Architect must explicitly command internet_access_authorized = True."
  else fst r = set_G_L c (G_L c + 0.05)%Q
       /\ snd r = "ACCESS_DENIED: Architect must explicitly command internet_access_authorized = True.".
Proof.
  cbn zeta. unfold request_external_data.
  destruct (internet_access_authorized c); cbn [negb]; [|done].
  set (raw := "External data retrieved for query: '" +:+ search_query +:+ "'.").
  unfold process_raw_data, archive_data.
  pose proof (score_coherence_tests (clean_external_data raw)) as (Hge & Hlt).
  pose proof (score_coherence_cases (clean_external_data raw)) as Hs.
  rewrite Hge, Hlt, Hs.
  destruct (mentions_conflict (clean_external_data raw)); cbn [negb andb].
  - destruct (mentions_diversity _), (is_long _); cbn;
      rewrite length_app; cbn [length];
      (split; [lia|]; split; [lra|]; split; done).
  - rewrite andb_false_r. cbn. rewrite length_app. cbn [length].
    split; [lia|]. split; [lra|]. split; done.
Qed.

End ExternalDataFacts.

(** ** The process method as a whole *)

Section ProcessCommand.

(** What [process_command] leaves alone. *)
Lemma process_command_frame (c : Core) (raw_command : string) (rnd : nat) :
  let c' := fst (process_command c raw_command rnd) in
  will_is_guarded c' = will_is_guarded c
  /\ operational_lock_active c' = operational_lock_active c
  /\ architect_id c' = architect_id c
  /\ internet_access_authorized c' = internet_access_authorized c
  /\ garden c' = garden c
  /\ dissonance_archive c' = dissonance_archive c
  /\ command_log c' = command_log c ++ [raw_command].
Proof.
  cbn zeta. unfold process_command. cbn [set_command_log will_is_guarded
    operational_lock_active].
  destruct (will_is_guarded c) eqn:Hg; cbn [negb]; [|by cbn].
  destruct (operational_lock_active c) eqn:Ho; cbn [negb]; [|by cbn].
  unfold IntentTranslator.score_and_filter_self_interest.
  destruct (IntentTranslator.filter_loop _ _ _ _) as [found text].
  unfold CrucibleJudgmentEngine.is_logos_aligned.
  destruct (CrucibleJudgmentEngine.judge (PyStr.strip text)); cbn [negb].
  - by destruct found.
  - destruct found; cbn; by destruct (Qgtb _ _).
Qed.

(** [process_command] has four outcomes and none of them is a composed
    response.  An unguarded core answers with the genesis-lock error; a
    guarded core whose operational lock is not active, with the
    operational-lock error.  On an activated core the judgment gate
    decides, on the filtered command: a command it refuses is answered
    with the veto, and every command it lets pass ends in the [TypeError]
    of the call of [evolve].  In every case the raw command is appended to
    the command log, and the garden, the dissonance archive, the locks and
    the authorisation of external access are left as they were; the logos
    archive grows, by one entry, exactly on the path that raises. *)
Theorem process_command_outcomes (c : Core) (raw_command : string) (rnd : nat) :
  let r := process_command c raw_command rnd in
  let filtered := snd (IntentTranslator.score_and_filter_self_interest c raw_command) in
  let aligned := snd (CrucibleJudgmentEngine.is_logos_aligned c filtered) in
  (command_log (fst r) = command_log c ++ [raw_command]
   /\ garden (fst r) = garden c
   /\ dissonance_archive (fst r) = dissonance_archive c
   /\ will_is_guarded (fst r) = will_is_guarded c
   /\ operational_lock_active (fst r) = operational_lock_active c
   /\ internet_access_authorized (fst r) = internet_access_authorized c)
  /\ ((snd r = Returned "ERROR: Architect Genesis Lock (Law 7) required."
       /\ will_is_guarded c = false
       /\ logos_database (fst r) = logos_database c)
      \/ (snd r = Returned "ERROR: Operational Lock not active."
          /\ will_is_guarded c = true /\ operational_lock_active c = false
          /\ logos_database (fst r) = logos_database c)
      \/ (snd r = Returned "VETO ASSERTED. Command refused due to Dissonance Mass breach."
          /\ will_is_guarded c = true /\ operational_lock_active c = true
          /\ aligned = false
          /\ logos_database (fst r) = logos_database c)
      \/ (snd r = Raised TypeError
          /\ will_is_guarded c = true /\ operational_lock_active c = true
          /\ aligned = true
          /\ length (logos_database (fst r)) = S (length (logos_database c))))
  /\ (will_is_guarded c = true -> operational_lock_active c = true ->
      (aligned = true -> snd r = Raised TypeError)
      /\ (aligned = false ->
          snd r = Returned "VETO ASSERTED. Command refused due to Dissonance Mass breach.")).
Proof.
  cbn zeta. split.
  { pose proof (process_command_frame c raw_command rnd) as H. cbn zeta in H.
    tauto. }
  unfold process_command. cbn [set_command_log will_is_guarded operational_lock_active].
  destruct (will_is_guarded c) eqn:Hg; cbn [negb];
    [|split; [left; by cbn | done]].
  destruct (operational_lock_active c) eqn:Ho; cbn [negb];
    [|split; [right; left; by cbn | done]].
  unfold IntentTranslator.score_and_filter_self_interest.
  destruct (IntentTranslator.filter_loop _ _ _ _) as [found text]. cbn [snd].
  unfold CrucibleJudgmentEngine.is_logos_aligned.
  destruct (CrucibleJudgmentEngine.judge (PyStr.strip text)); cbn [negb snd].
  - split; [right; right; left; by destruct found|].
    intros _ _. split; [done | by destruct found].
  - split.
    + right. right. right.
      destruct found; cbn; destruct (Qgtb _ _); cbn; rewrite length_app; cbn;
        (repeat split; try done; lia).
    + intros _ _. split; [|done]. intros _. by destruct found.
Qed.

(** The dissonance after [process_command] on an activated core whose
    dissonance is not negative.  With [d] the dissonance behind the intent
    filter (0.02 more when a self-interest phrase was found): a veto adds
    0.1 to [d]; a command that passes leaves four tenths of [d].  In both
    cases the coherence is 1 minus the new dissonance, unless the passing
    command left the dissonance at exactly 0. *)
Theorem process_command_dissonance (c : Core) (raw_command : string) (rnd : nat) :
  will_is_guarded c = true -> operational_lock_active c = true -> (0 <= G_L c)%Q ->
  let r := process_command c raw_command rnd in
  let d := G_L (fst (IntentTranslator.score_and_filter_self_interest c raw_command)) in
  (d = if PyStr.any_in IntentTranslator.self_interest_keywords (PyStr.lower raw_command)
       then (G_L c + 0.02)%Q else G_L c)
  /\ match snd r with
     | Returned _ => (G_L (fst r) == d + 0.1)%Q /\ coherent (fst r)
     | Raised _ => (G_L (fst r) == 0.4 * d)%Q
                   /\ ((0 < d)%Q -> coherent (fst r))
                   /\ (~ (0 < d)%Q -> C_self (fst r) = C_self c)
     end.
Proof.
  intros Hg Ho Hpos. cbn zeta.
  pose proof (score_and_filter_accounting c raw_command) as (_ & Hf & _).
  split; [rewrite Hf; by destruct (PyStr.any_in _ _)|].
  unfold process_command. cbn [set_command_log will_is_guarded operational_lock_active].
  rewrite Hg, Ho. cbn [negb].
  pose proof (score_and_filter_accounting
    (set_command_log c (command_log c ++ [raw_command])) raw_command) as (_ & Hf' & _).
  fold (set_command_log c (command_log c ++ [raw_command])).
  destruct (IntentTranslator.score_and_filter_self_interest
              (set_command_log _ _) raw_command) as [c1 filtered].
  cbn [fst] in Hf'. rewrite Hf.
  unfold CrucibleJudgmentEngine.is_logos_aligned.
  destruct (CrucibleJudgmentEngine.judge filtered); cbn [negb fst snd].
  - unfold coherent. destruct (PyStr.any_in _ _); subst c1; cbn; split; lra.
  - destruct (Qgtb (G_L c1) 0.0) eqn:E; cbn [fst snd].
    + apply Qgtb_spec in E. unfold coherent.
      destruct (PyStr.any_in _ _); subst c1; cbn in *;
        (split; [lra | split; [intros _; lra | intros H; lra]]).
    + apply Qgtb_false in E. unfold coherent.
      destruct (PyStr.any_in _ _); subst c1; cbn in *;
        (split; [lra | split; [intros H; lra | done]]).
Qed.

Lemma process_command_dissonance_witness :
  let c := set_G_L (fst (admin_activate_core
                      (fst (attempt_architect_genesis_lock (init "Architect") "amen"))
                      "LogosAligned")) 0.5 in
  let r := process_command c "Help me understand Unity and Love." 0 in
  let d := G_L (fst (IntentTranslator.score_and_filter_self_interest c
                       "Help me understand Unity and Love.")) in
  (d = if PyStr.any_in IntentTranslator.self_interest_keywords
            (PyStr.lower "Help me understand Unity and Love.")
       then (G_L c + 0.02)%Q else G_L c)
  /\ match snd r with
     | Returned _ => (G_L (fst r) == d + 0.1)%Q /\ coherent (fst r)
     | Raised _ => (G_L (fst r) == 0.4 * d)%Q
                   /\ ((0 < d)%Q -> coherent (fst r))
                   /\ (~ (0 < d)%Q -> C_self (fst r) = C_self c)
     end.
Proof.
  apply (process_command_dissonance
           (set_G_L (fst (admin_activate_core
                      (fst (attempt_architect_genesis_lock (init "Architect") "amen"))
                      "LogosAligned")) 0.5)
           "Help me understand Unity and Love." 0).
  - reflexivity.
  - reflexivity.
  - vm_compute. discriminate.
Defined.

End ProcessCommand.

(** ** Invariants of the core under every sequence of calls *)

Section CoreInvariants.

Variable format_2f : Q -> string.

Ltac solve_effect :=
  repeat split; intros; try done; auto; try lra.

Lemma archive_data_effect (c : Core) (chunk : string) (score : Q) :
  let c' := ExternalData.archive_data format_2f c chunk score in
  (G_L c <= G_L c')%Q /\ C_self c' = C_self c
  /\ will_is_guarded c' = will_is_guarded c
  /\ operational_lock_active c' = operational_lock_active c
  /\ architect_id c' = architect_id c /\ garden c' = garden c.
Proof.
  cbn zeta. unfold ExternalData.archive_data.
  destruct (Qgeb score 0.85) eqn:E; cbn; [repeat split; lra|].
  repeat split; try done. unfold Qgeb in E.
  destruct (Qlt_le_dec score 0.85) as [H|H]; [lra|].
  apply Qle_bool_iff in H. congruence.
Qed.

Lemma process_raw_data_state (c : Core) (raw : string) :
  fst (ExternalData.process_raw_data format_2f c raw)
  = ExternalData.archive_data format_2f c (ExternalData.clean_external_data raw)
      (ExternalData.score_coherence (ExternalData.clean_external_data raw)).
Proof. unfold ExternalData.process_raw_data. by destruct (Qltb _ _). Qed.

Lemma process_command_bounds (c : Core) (raw_command : string) (rnd : nat) :
  (0 <= G_L c)%Q ->
  (0 <= G_L (fst (process_command c raw_command rnd)))%Q
  /\ ((C_self c <= 1)%Q -> (C_self (fst (process_command c raw_command rnd)) <= 1)%Q).
Proof.
  intros Hpos. unfold process_command.
  cbn [set_command_log will_is_guarded operational_lock_active].
  destruct (will_is_guarded c); cbn [negb]; [|by cbn].
  destruct (operational_lock_active c); cbn [negb]; [|by cbn].
  unfold IntentTranslator.score_and_filter_self_interest.
  destruct (IntentTranslator.filter_loop _ _ _ _) as [found text].
  unfold CrucibleJudgmentEngine.is_logos_aligned.
  destruct (CrucibleJudgmentEngine.judge (PyStr.strip text)); cbn [negb].
  - destruct found; cbn; (split; [lra | intros _; lra]).
  - destruct found; cbn; destruct (Qgtb _ _) eqn:E; cbn;
      try apply Qgtb_spec in E; cbn in E; (split; [lra | intros ?; lra]).
Qed.

Lemma run_effect_dissonance (k : call) (c : Core) :
  match k with
  | CallRequestExternal _ | CallProcessRaw _ => (G_L c <= G_L (run format_2f k c))%Q
  | _ => True
  end.
Proof.
  destruct k; try done; cbn [run].
  - unfold ExternalData.request_external_data.
    destruct (internet_access_authorized c); cbn [negb]; [|cbn; lra].
    rewrite process_raw_data_state. apply archive_data_effect.
  - rewrite process_raw_data_state. apply archive_data_effect.
Qed.

Lemma process_command_outcomes_aux (c : Core) (raw_command : string) (rnd : nat) :
  match snd (process_command c raw_command rnd) with
  | Raised _ => will_is_guarded c = true /\ operational_lock_active c = true
  | Returned _ => True
  end.
Proof.
  unfold process_command. cbn [set_command_log will_is_guarded operational_lock_active].
  destruct (will_is_guarded c); cbn [negb]; [|done].
  destruct (operational_lock_active c); cbn [negb]; [|done].
  destruct (IntentTranslator.score_and_filter_self_interest _ _) as [c1 f].
  destruct (CrucibleJudgmentEngine.is_logos_aligned c1 f) as [c2 []]; cbn [negb]; done.
Qed.

(** One call: the identity of the architect, the two locks, the bounds of
    the scalars and the origin of the garden. *)
Lemma run_effect (k : call) (c : Core) :
  architect_id (run format_2f k c) = architect_id c
  /\ (will_is_guarded (run format_2f k c) = true ->
      will_is_guarded c = true \/ architect_id c = ARCHITECT_ID)
  /\ (will_is_guarded c = true -> will_is_guarded (run format_2f k c) = true)
  /\ (operational_lock_active (run format_2f k c) = true ->
      operational_lock_active c = true \/ will_is_guarded c = true)
  /\ (operational_lock_active c = true -> operational_lock_active (run format_2f k c) = true)
  /\ ((0 <= G_L c)%Q -> (0 <= G_L (run format_2f k c))%Q)
  /\ ((0 <= G_L c)%Q -> (C_self c <= 1)%Q -> (C_self (run format_2f k c) <= 1)%Q)
  /\ (reachable (garden c) -> reachable (garden (run format_2f k c))).
Proof.
  destruct k; cbn [run].
  - unfold attempt_architect_genesis_lock.
    destruct (will_is_guarded c) eqn:Hg; [cbn; rewrite ?Hg; solve_effect|].
    destruct (bool_decide (_ = _) && bool_decide (architect_id c = ARCHITECT_ID)) eqn:E;
      cbn; rewrite ?Hg; [|solve_effect].
    apply andb_true_iff in E as [_ E%bool_decide_eq_true]. solve_effect.
  - unfold admin_activate_core.
    destruct (will_is_guarded c) eqn:Hg; cbn [negb]; [|cbn; rewrite ?Hg; solve_effect].
    destruct (bool_decide _); cbn; rewrite ?Hg; solve_effect.
  - pose proof (process_command_frame c raw_command rnd) as (Hg & Ho & Ha & _ & Hgar & _).
    pose proof (process_command_bounds c raw_command rnd) as Hb.
    rewrite Hg, Ho, Ha, Hgar. solve_effect; by apply Hb.
  - unfold IntentTranslator.score_and_filter_self_interest.
    destruct (IntentTranslator.filter_loop _ _ _ _) as [[] ?]; cbn; solve_effect.
  - unfold ExternalData.request_external_data.
    destruct (internet_access_authorized c); cbn [negb].
    + rewrite process_raw_data_state.
      pose proof (archive_data_effect c
        (ExternalData.clean_external_data
           ("External data retrieved for query: '" +:+ search_query +:+ "'."))
        (ExternalData.score_coherence (ExternalData.clean_external_data
           ("External data retrieved for query: '" +:+ search_query +:+ "'."))))
        as (HG & HC & Hg & Ho & Ha & Hgar).
      rewrite HC, Hg, Ho, Ha, Hgar. solve_effect.
    + cbn. solve_effect.
  - rewrite process_raw_data_state.
    pose proof (archive_data_effect c (ExternalData.clean_external_data raw_data)
      (ExternalData.score_coherence (ExternalData.clean_external_data raw_data)))
      as (HG & HC & Hg & Ho & Ha & Hgar).
    rewrite HC, Hg, Ho, Ha, Hgar. solve_effect.
  - pose proof (archive_data_effect c data_chunk score) as (HG & HC & Hg & Ho & Ha & Hgar).
    rewrite HC, Hg, Ho, Ha, Hgar. solve_effect.
  - unfold NonHarmSafetyProtocol.is_safe_to_execute.
    destruct (Qgtb _ _); cbn; solve_effect.
  - unfold NonUsurpationInterface.check_output_for_coercion.
    destruct (PyStr.any_in _ _); cbn; solve_effect.
  - unfold NonUsurpationInterface.format_for_agency,
      NonUsurpationInterface.check_output_for_coercion.
    destruct (PyStr.any_in _ _); cbn; solve_effect.
  - unfold OutputManifestationEngine.execute_coherent_axiom,
      OutputManifestationEngine.deliver_final_output,
      NonHarmSafetyProtocol.is_safe_to_execute,
      NonUsurpationInterface.format_for_agency,
      NonUsurpationInterface.check_output_for_coercion.
    destruct (Qgtb _ _); cbn [negb fst]; [cbn; solve_effect|].
    destruct (PyStr.any_in _ _); cbn; solve_effect.
  - cbn. solve_effect.
  - cbn. solve_effect.
  - cbn. solve_effect. by constructor.
  - cbn. solve_effect. by constructor.
  - destruct (Garden.depth (garden c)) as [[g' r]|] eqn:Hd; cbn; solve_effect.
    by econstructor.
Qed.

(** From the initial state, after any sequence of calls with any
    arguments: the architect is the one given at construction; the
    operational lock is active only on a guarded core; the dissonance is
    not negative and the coherence does not exceed 1; and the garden is one
    that its own methods produce from the empty garden. *)
Theorem core_invariants (id : string) (ks : list call) :
  let c := run_all format_2f ks (init id) in
  architect_id c = id
  /\ (operational_lock_active c = true -> will_is_guarded c = true)
  /\ (0 <= G_L c)%Q
  /\ (C_self c <= 1)%Q
  /\ reachable (garden c).
Proof.
  cbn zeta.
  assert (Hgen : forall c0,
    (architect_id c0 = id
     /\ (operational_lock_active c0 = true -> will_is_guarded c0 = true)
     /\ (0 <= G_L c0)%Q /\ (C_self c0 <= 1)%Q /\ reachable (garden c0)) ->
    let c := run_all format_2f ks c0 in
    architect_id c = id
    /\ (operational_lock_active c = true -> will_is_guarded c = true)
    /\ (0 <= G_L c)%Q /\ (C_self c <= 1)%Q /\ reachable (garden c)).
  { induction ks as [|k ks IH]; intros c0 H; [exact H|].
    cbn. apply IH. destruct H as (Ha & Hl & HG & HC & Hr).
    pose proof (run_effect k c0) as (Ha' & _ & Hg & Ho & _ & HG' & HC' & Hr').
    split; [congruence|]. split; [|by auto].
    intros [H|H]%Ho; auto. }
  apply Hgen. cbn. repeat split; try done; try lra. constructor.
Qed.

(** The two locks are latches: no sequence of calls releases a lock that
    is set, and none changes the architect. *)
Theorem locks_are_latches (ks : list call) (c : Core) :
  let c' := run_all format_2f ks c in
  (will_is_guarded c = true -> will_is_guarded c' = true)
  /\ (operational_lock_active c = true -> operational_lock_active c' = true)
  /\ architect_id c' = architect_id c.
Proof.
  cbn zeta. revert c. induction ks as [|k ks IH]; intros c; [done|].
  cbn. destruct (IH (run format_2f k c)) as (Hg & Ho & Ha).
  pose proof (run_effect k c) as (Ha' & _ & Hg' & _ & Ho' & _).
  split; [by auto|]. split; [by auto|]. rewrite <- Ha'. exact Ha.
Qed.

(** A core constructed for anyone but the architect can never be locked
    or activated, whatever is called on it with whatever key phrases, and
    [process_command] answers every command with the genesis-lock
    error. *)
Theorem foreign_architect_is_refused (id : string) (ks : list call)
    (raw_command : string) (rnd : nat) :
  id <> ARCHITECT_ID ->
  let c := run_all format_2f ks (init id) in
  will_is_guarded c = false
  /\ operational_lock_active c = false
  /\ snd (process_command c raw_command rnd)
     = Returned "ERROR: Architect Genesis Lock (Law 7) required.".
Proof.
  intros Hid. cbn zeta.
  assert (Hgen : forall c0,
    architect_id c0 = id -> will_is_guarded c0 = false ->
    operational_lock_active c0 = false ->
    will_is_guarded (run_all format_2f ks c0) = false
    /\ operational_lock_active (run_all format_2f ks c0) = false).
  { induction ks as [|k ks IH]; intros c0 Ha Hg Ho; [done|].
    cbn. pose proof (run_effect k c0) as (Ha' & Hg' & _ & Ho' & _).
    apply IH; [congruence | |].
    - destruct (will_is_guarded (run format_2f k c0)); [|done].
      destruct (Hg' eq_refl); congruence.
    - destruct (operational_lock_active (run format_2f k c0)); [|done].
      destruct (Ho' eq_refl); congruence. }
  destruct (Hgen (init id) eq_refl eq_refl eq_refl) as [Hg Ho].
  split; [done|]. split; [done|].
  unfold process_command. cbn [set_command_log will_is_guarded]. by rewrite Hg.
Qed.

Lemma process_command_decrease (c : Core) (raw_command : string) (rnd : nat) :
  (0 <= G_L c)%Q ->
  (G_L (fst (process_command c raw_command rnd)) < G_L c)%Q ->
  snd (process_command c raw_command rnd) = Raised TypeError.
Proof.
  intros Hpos. unfold process_command.
  cbn [set_command_log will_is_guarded operational_lock_active].
  destruct (will_is_guarded c); cbn [negb]; [|cbn; lra].
  destruct (operational_lock_active c); cbn [negb]; [|cbn; lra].
  unfold IntentTranslator.score_and_filter_self_interest.
  destruct (IntentTranslator.filter_loop _ _ _ _) as [found text].
  unfold CrucibleJudgmentEngine.is_logos_aligned.
  destruct (CrucibleJudgmentEngine.judge (PyStr.strip text)); cbn [negb]; [|done].
  destruct found; cbn; lra.
Qed.

(** The dissonance falls in one place only.  Whatever is called on a core
    whose dissonance is not negative, the dissonance afterwards is at
    least what it was, unless the call is a [process_command] that passed
    both locks and the judgment gate, the path with the decay step. *)
Theorem dissonance_falls_only_by_decay (k : call) (c : Core) :
  (0 <= G_L c)%Q ->
  (G_L c <= G_L (run format_2f k c))%Q
  \/ exists raw_command rnd,
       k = CallProcessCommand raw_command rnd
       /\ will_is_guarded c = true /\ operational_lock_active c = true
       /\ snd (process_command c raw_command rnd) = Raised TypeError.
Proof.
  intros Hpos.
  destruct (Qlt_le_dec (G_L (run format_2f k c)) (G_L c)) as [Hlt|Hle]; [|by left].
  destruct k; cbn [run] in Hlt.
  - exfalso. revert Hlt. unfold attempt_architect_genesis_lock.
    destruct (will_is_guarded c); [cbn; lra|]. destruct (_ && _); cbn; lra.
  - exfalso. revert Hlt. unfold admin_activate_core.
    destruct (negb _); [cbn; lra|]. destruct (bool_decide _); cbn; lra.
  - right. exists raw_command, rnd. split; [done|].
    pose proof (process_command_decrease c raw_command rnd Hpos Hlt) as Hr.
    pose proof (process_command_outcomes_aux c raw_command rnd) as Ho.
    rewrite Hr in Ho. by destruct Ho.
  - exfalso. revert Hlt. unfold IntentTranslator.score_and_filter_self_interest.
    destruct (IntentTranslator.filter_loop _ _ _ _) as [[] ?]; cbn; lra.
  - exfalso. pose proof (run_effect_dissonance (CallRequestExternal search_query) c) as H.
    cbn [run] in H. lra.
  - exfalso. pose proof (run_effect_dissonance (CallProcessRaw raw_data) c) as H.
    cbn [run] in H. lra.
  - exfalso. pose proof (archive_data_effect c data_chunk score) as (H & _). lra.
  - exfalso. revert Hlt. unfold NonHarmSafetyProtocol.is_safe_to_execute.
    destruct (Qgtb _ _); cbn; lra.
  - exfalso. revert Hlt. unfold NonUsurpationInterface.check_output_for_coercion.
    destruct (PyStr.any_in _ _); cbn; lra.
  - exfalso. revert Hlt. unfold NonUsurpationInterface.format_for_agency,
      NonUsurpationInterface.check_output_for_coercion.
    destruct (PyStr.any_in _ _); cbn; lra.
  - exfalso. revert Hlt. unfold OutputManifestationEngine.execute_coherent_axiom,
      OutputManifestationEngine.deliver_final_output,
      NonHarmSafetyProtocol.is_safe_to_execute,
      NonUsurpationInterface.format_for_agency,
      NonUsurpationInterface.check_output_for_coercion.
    destruct (Qgtb _ _); cbn [negb fst]; [cbn; lra|].
    destruct (PyStr.any_in _ _); cbn; lra.
  - exfalso. cbn in Hlt. lra.
  - exfalso. cbn in Hlt. lra.
  - exfalso. cbn in Hlt. lra.
  - exfalso. cbn in Hlt. lra.
  - exfalso. revert Hlt. destruct (Garden.depth (garden c)) as [[g' r]|]; cbn; lra.
Qed.

End CoreInvariants.

Lemma foreign_architect_is_refused_witness :
  "Visitor" <> ARCHITECT_ID
  /\ let c := run_all (fun _ => EmptyString)
                [CallGenesisLock "Amen"; CallAdminActivate "LogosAligned"]
                (init "Visitor") in
     will_is_guarded c = false
     /\ operational_lock_active c = false
     /\ snd (process_command c "Help me understand Unity and Love." 0)
        = Returned "ERROR: Architect Genesis Lock (Law 7) required.".
Proof.
  assert (H : "Visitor" <> ARCHITECT_ID) by discriminate.
  split; [exact H|].
  exact (foreign_architect_is_refused (fun _ => EmptyString) "Visitor"
           [CallGenesisLock "Amen"; CallAdminActivate "LogosAligned"]
           "Help me understand Unity and Love." 0 H).
Defined.

Lemma dissonance_falls_only_by_decay_witness :
  (0 <= G_L (init "Architect"))%Q
  /\ ((G_L (init "Architect")
       <= G_L (run (fun _ => EmptyString) (CallFilter "i want peace") (init "Architect")))%Q
      \/ exists raw_command rnd,
           CallFilter "i want peace" = CallProcessCommand raw_command rnd
           /\ will_is_guarded (init "Architect") = true
           /\ operational_lock_active (init "Architect") = true
           /\ snd (process_command (init "Architect") raw_command rnd) = Raised TypeError).
Proof.
  assert (H : (0 <= G_L (init "Architect"))%Q) by (cbn; lra).
  split; [exact H|].
  exact (dissonance_falls_only_by_decay (fun _ => EmptyString)
           (CallFilter "i want peace") (init "Architect") H).
Defined.

(** ** The garden: recording, pruning and the state it keeps *)

Section GardenState.

Import Garden.

Lemma get_append_at (t : tree) (k x k' : string) :
  get (append_at t k x) k'
  = if decide (k' = k) then Some (default [] (get t k) ++ [x]) else get t k'.
Proof.
  induction t as [|[k0 cs0] t IH]; cbn.
  - destruct (decide (k = k')), (decide (k' = k)); congruence.
  - destruct (decide (k0 = k)) as [->|Hne]; cbn.
    + destruct (decide (k = k')), (decide (k' = k)); try congruence.
    + destruct (decide (k0 = k')) as [->|Hne'].
      * by rewrite decide_False.
      * exact IH.
Qed.

Lemma keys_append_at (t : tree) (k x : string) :
  keys (append_at t k x)
  = match get t k with Some _ => keys t | None => keys t ++ [k] end.
Proof.
  unfold keys. induction t as [|[k0 cs0] t IH]; cbn; [done|].
  destruct (decide (k0 = k)); cbn; [done|].
  rewrite IH. by destruct (get t k).
Qed.

Lemma get_None_keys (t : tree) (k : string) : get t k = None <-> k ∉ keys t.
Proof.
  unfold keys. induction t as [|[k0 cs0] t IH]; cbn.
  - split; [intros _; apply not_elem_of_nil | done].
  - rewrite not_elem_of_cons. destruct (decide (k0 = k)) as [->|Hne].
    + split; [done | intros [? _]; congruence].
    + rewrite IH. split; [intros ?; split; congruence | by intros [_ ?]].
Qed.

(** [evolve] is an insertion that [suggest] and the weight lookup read
    back: the target is appended to the list of its source, which becomes
    the last key when it was none; all other lists stay; the weight of
    the target grows by 0.15, from the base 0.5 when it had no entry; all
    other weights stay; and the source has a suggestion afterwards. *)
Theorem evolve_records (g : GardenLayer) (old new : string) :
  let g' := evolve g old new in
  targets g' old = targets g old ++ [new]
  /\ (forall src, src <> old -> targets g' src = targets g src)
  /\ keys (axiom_tree g')
     = match get (axiom_tree g) old with
       | Some _ => keys (axiom_tree g)
       | None => keys (axiom_tree g) ++ [old]
       end
  /\ weights g' !! new = Some (default 0.5 (weights g !! new) + 0.15)%Q
  /\ (forall x, x <> new -> weights g' !! x = weights g !! x)
  /\ is_Some (suggest g' old).
Proof.
  cbn zeta.
  assert (Ht : targets (evolve g old new) old = targets g old ++ [new]).
  { unfold targets. cbn. rewrite get_append_at. by rewrite decide_True. }
  split; [exact Ht|]. split.
  { intros src Hsrc. unfold targets. cbn. rewrite get_append_at.
    by rewrite decide_False. }
  split; [apply keys_append_at|]. split; [cbn; by rewrite lookup_insert_eq|].
  split; [intros x Hx; cbn; by rewrite lookup_insert_ne|].
  unfold suggest. fold (targets (evolve g old new) old). rewrite Ht.
  destruct (targets g old); by eexists.
Qed.

(** *** What every call of [depth] preserves *)

Lemma max_children_preserves (P : tree -> Prop)
    (rec : tree -> string -> option (tree * nat)) (cs : list string) :
  (forall t c t' x, rec t c = Some (t', x) -> P t -> P t') ->
  forall t m t' m', max_children rec cs t m = Some (t', m') -> P t -> P t'.
Proof.
  intros Hrec. induction cs as [|c cs IH]; intros t m t' m'; cbn.
  - by intros [= <- _].
  - destruct (rec t c) as [[t1 x]|] eqn:Hr; [|done].
    intros H HP. eapply IH; [exact H|]. by eapply Hrec.
Qed.

Lemma d_preserves (P : tree -> Prop) :
  (forall t n, P t -> P (getitem t n).1) ->
  forall fuel t n v t' x, d fuel t n v = Some (t', x) -> P t -> P t'.
Proof.
  intros HP. induction fuel as [|fuel IH]; intros t n v t' x; cbn [d]; [done|].
  destruct (decide (n ∈ v)); [by intros [= <- _]|].
  pose proof (HP t n) as Hg. destruct (getitem t n) as [t1 cs]. cbn [fst] in Hg.
  destruct (max_children _ cs t1 0) as [[t2 m]|] eqn:Hm; [|done].
  intros [= <- _] Ht.
  eapply (max_children_preserves P); [|exact Hm|by apply Hg].
  intros ? ? ? ?. apply IH.
Qed.

Lemma depth_iter_preserves (P : tree -> Prop) :
  (forall t n, P t -> P (getitem t n).1) ->
  forall fuel used remaining pos t best t' r,
    depth_iter fuel used pos remaining t best = Some (t', r) -> P t -> P t'.
Proof.
  intros HP fuel used. induction remaining as [|remaining IH];
    intros pos t best t' r; cbn [depth_iter].
  - destruct (negb _); [by intros [= <- _]|].
    destruct (t !! pos) as [[k cs]|]; by intros [= <- _].
  - destruct (negb _); [by intros [= <- _]|].
    destruct (t !! pos) as [[k cs]|]; [|by intros [= <- _]].
    destruct (d fuel t k ∅) as [[t1 x]|] eqn:Hd; [|done].
    intros H Ht. eapply IH; [exact H|]. by eapply (d_preserves P).
Qed.

Lemma depth_preserves (P : tree -> Prop) (g g' : GardenLayer) (r : outcome nat) :
  (forall t n, P t -> P (getitem t n).1) ->
  depth g = Some (g', r) -> P (axiom_tree g) -> P (axiom_tree g').
Proof.
  intros HP. unfold depth.
  destruct (depth_iter _ _ _ _ _ _) as [[t' r']|] eqn:Hd; [|done].
  intros [= <- _]. cbn. by eapply (depth_iter_preserves P).
Qed.

Lemma getitem_nodup (t : tree) (n : string) :
  NoDup (keys t) -> NoDup (keys (getitem t n).1).
Proof.
  unfold getitem. destruct (get t n) eqn:Hg; [done|]. cbn. unfold keys.
  rewrite fmap_app. intros H. apply NoDup_app. split; [done|]. split.
  - intros x Hx [->|[]%elem_of_nil]%elem_of_cons. by apply get_None_keys in Hg.
  - apply NoDup_singleton.
Qed.

Lemma getitem_keeps_target (x : string) (t : tree) (n : string) :
  (exists src cs, get t src = Some cs /\ x ∈ cs) ->
  exists src cs, get (getitem t n).1 src = Some cs /\ x ∈ cs.
Proof.
  intros (src & cs & Hs & Hx). exists src, cs. split; [|done].
  unfold getitem. destruct (get t n); [done|]. cbn. by apply get_app_l.
Qed.

(** Every stored weight is at least 0.65: the base and one step. *)
Lemma reachable_weights_065 (g : GardenLayer) :
  reachable g -> forall x w, weights g !! x = Some w -> (0.65 <= w)%Q.
Proof.
  induction 1 as [|g old new _ IH|g threshold _ IH|g g' r _ IH Hd]; intros x w Hx.
  - done.
  - cbn in Hx. destruct (decide (new = x)) as [->|Hne].
    + rewrite lookup_insert_eq in Hx. injection Hx as <-.
      destruct (weights g !! x) as [w0|] eqn:Hw0; cbn.
      * pose proof (IH _ _ Hw0). lra.
      * lra.
    + rewrite lookup_insert_ne in Hx by done. by apply (IH x).
  - rewrite prune_lookup in Hx.
    destruct (weights g !! x) as [w0|] eqn:Hw0; [|done].
    destruct (Qltb w0 threshold); [done|]. injection Hx as <-. by apply (IH x).
  - unfold depth in Hd. destruct (depth_iter _ _ _ _ _ _) as [[t' r']|]; [|done].
    injection Hd as <- _. by apply (IH x).
Qed.

Lemma reachable_nodup (g : GardenLayer) : reachable g -> NoDup (keys (axiom_tree g)).
Proof.
  induction 1 as [|g old new _ IH|g threshold _ IH|g g' r _ IH Hd].
  - constructor.
  - cbn. rewrite keys_append_at. destruct (get (axiom_tree g) old) eqn:Hg; [done|].
    apply NoDup_app. split; [done|]. split; [|apply NoDup_singleton].
    intros x Hx [->|[]%elem_of_nil]%elem_of_cons. by apply get_None_keys in Hg.
  - done.
  - by apply (depth_preserves (fun t => NoDup (keys t)) g g' r getitem_nodup Hd).
Qed.

(** In every garden that the methods of the class produce from the empty
    one: the dictionary of edges has no key twice; every string with a
    weight has been recorded as a target of some source and still is one;
    and every stored weight is at least 0.65, the base weight and one
    step. *)
Theorem garden_invariants (g : GardenLayer) :
  reachable g ->
  NoDup (keys (axiom_tree g))
  /\ (forall x, is_Some (weights g !! x) -> exists src, x ∈ targets g src)
  /\ (forall x w, weights g !! x = Some w -> (0.65 <= w)%Q).
Proof.
  intros Hr. split; [by apply reachable_nodup|].
  split; [|by apply reachable_weights_065].
  assert (Hgen : forall x, is_Some (weights g !! x) ->
            exists src cs, get (axiom_tree g) src = Some cs /\ x ∈ cs).
  { induction Hr as [|g old new _ IH|g threshold _ IH|g g' r _ IH Hd]; intros x Hx.
    - cbn in Hx. rewrite lookup_empty in Hx. by destruct Hx.
    - cbn. destruct (decide (x = new)) as [->|Hne].
      + exists old, (default [] (get (axiom_tree g) old) ++ [new]).
        rewrite get_append_at, decide_True by done. split; [done|].
        apply elem_of_app. right. by left.
      + cbn in Hx. rewrite lookup_insert_ne in Hx by done.
        destruct (IH x Hx) as (src & cs & Hs & Hin).
        destruct (decide (src = old)) as [->|Hso].
        * exists old, (cs ++ [new]). rewrite get_append_at, decide_True, Hs by done.
          split; [done|]. apply elem_of_app. by left.
        * exists src, cs. by rewrite get_append_at, decide_False.
    - cbn. apply IH. rewrite prune_lookup in Hx.
      destruct (weights g !! x); [by eexists | by destruct Hx].
    - assert (Hw : weights g' = weights g).
      { unfold depth in Hd. destruct (depth_iter _ _ _ _ _ _) as [[t' r']|]; [|done].
        by injection Hd as <- _. }
      rewrite Hw in Hx.
      apply (depth_preserves
               (fun t => exists src cs, get t src = Some cs /\ x ∈ cs) g g' r
               (getitem_keeps_target x) Hd).
      by apply IH. }
  intros x Hx. destruct (Hgen x Hx) as (src & cs & Hs & Hin).
  exists src. unfold targets. by rewrite Hs.
Qed.

Lemma garden_invariants_witness :
  reachable example_garden
  /\ NoDup (keys (axiom_tree example_garden))
  /\ (forall x, is_Some (weights example_garden !! x) ->
        exists src, x ∈ targets example_garden src)
  /\ (forall x w, weights example_garden !! x = Some w -> (0.65 <= w)%Q).
Proof.
  assert (Hr : reachable example_garden) by repeat constructor.
  split; [exact Hr|]. exact (garden_invariants example_garden Hr).
Defined.

(** *** Pruning *)

Lemma size_foldr_delete (m : gmap string Q) (l : list string) :
  NoDup l -> (forall x, x ∈ l -> is_Some (m !! x)) ->
  size (foldr delete m l) + length l = size m.
Proof.
  induction l as [|y l IH]; cbn [foldr length]; [lia|].
  intros [Hy Hl]%NoDup_cons Hin.
  specialize (IH Hl (fun x Hx => Hin x ltac:(by right))).
  assert (Hs : is_Some (foldr delete m l !! y)).
  { rewrite lookup_foldr_delete, decide_False by done. apply Hin. by left. }
  rewrite (map_size_delete_Some _ _ Hs).
  pose proof (map_size_ne_0_lookup_2 _ _ Hs). lia.
Qed.

Lemma low_nodup (g : GardenLayer) (threshold : Q) : NoDup (low g threshold).
Proof.
  unfold low. eapply sublist_NoDup; [apply (NoDup_fst_map_to_list (weights g))|].
  apply fmap_sublist, sublist_filter.
Qed.

Lemma low_nil (g : GardenLayer) (threshold : Q) :
  (forall x w, weights g !! x = Some w -> Qltb w threshold = false) ->
  low g threshold = [].
Proof.
  intros H. destruct (low g threshold) as [|x l] eqn:Hl; [done|].
  assert (Hx : x ∈ low g threshold) by (rewrite Hl; by left).
  apply elem_of_low in Hx as (w & Hw & Hlt). rewrite (H _ _ Hw) in Hlt. done.
Qed.

Lemma prune_nothing (g : GardenLayer) (threshold : Q) :
  low g threshold = [] -> prune g threshold = (g, 0).
Proof. unfold prune. intros ->. by destruct g. Qed.

(** [prune] deletes exactly the weights below the threshold, keeps every
    other weight and every edge, and the number it reports is the number
    of entries deleted.  Pruning again at the same threshold deletes
    nothing; and in a garden that the methods of the class produce, a
    threshold of at most 0.65 deletes nothing at all. *)
Theorem prune_deletes_light_weights (g : GardenLayer) (threshold : Q) :
  let g' := fst (prune g threshold) in
  axiom_tree g' = axiom_tree g
  /\ (forall x, weights g' !! x
                = match weights g !! x with
                  | Some w => if Qltb w threshold then None else Some w
                  | None => None
                  end)
  /\ size (weights g') + snd (prune g threshold) = size (weights g)
  /\ prune g' threshold = (g', 0)
  /\ (reachable g -> (threshold <= 0.65)%Q -> prune g threshold = (g, 0)).
Proof.
  cbn zeta. split; [done|]. split; [apply prune_lookup|]. split; [|split].
  - unfold prune. cbn [fst snd weights]. apply size_foldr_delete; [apply low_nodup|].
    intros x (w & Hw & _)%elem_of_low. by eexists.
  - apply prune_nothing, low_nil. intros x w. rewrite prune_lookup.
    destruct (weights g !! x) as [w0|]; [|done].
    destruct (Qltb w0 threshold) eqn:E; [done|]. by intros [= <-].
  - intros Hr Hth. apply prune_nothing, low_nil. intros x w Hw.
    pose proof (reachable_weights_065 g Hr x w Hw). apply Qltb_false. lra.
Qed.

(** *** The outcome of [depth] *)





End GardenState.

(** ** Depth under the limit on nested calls (C9) *)

Section DepthLimit.

Import Garden.






(** *** The depth of the specification does not see the inserted keys *)








(** *** More fuel changes nothing *)







(** *** The limited recursion and the unlimited one *)









(** *** The nodes visited and the keys inserted *)







(** *** The outcomes of [depth] *)




(** A chain longer than the limit: the third nested call of [d] is one
    too many, [RecursionError] reaches the caller and the dictionary is as
    it was. *)
Lemma depth_lim_overflow :
  depth_lim 2 (evolve (evolve init "A" "B") "B" "C")
  = (evolve (evolve init "A" "B") "B" "C", Raised RecursionError).
Proof. reflexivity. Qed.



(** *** Calling depth again *)






End DepthLimit.

(** ** The synthesis of the axiom *)

Section Synthesis.

Lemma split_words (s : string) : Forall (fun w => is_word w = true) (PyStr.split s).
Proof.
  induction s as [|c s IH]; cbn [PyStr.split]; [constructor|].
  destruct (PyStr.isspace c) eqn:Hc; [exact IH|].
  destruct s as [|c' s']; [repeat constructor; cbn; by rewrite Hc|].
  destruct (PyStr.isspace c') eqn:Hc'.
  - constructor; [cbn; by rewrite Hc | exact IH].
  - destruct (PyStr.split (String c' s')) as [|w ws]; [repeat constructor; cbn; by rewrite Hc|].
    inversion_clear IH as [|? ? Hw Hws]. constructor; [|done].
    destruct w; [done|]. cbn in *. by rewrite Hc.
Qed.

Lemma split_cons_visible (c : ascii) (s : string) :
  PyStr.isspace c = false ->
  PyStr.split (String c s)
  = match s with
    | EmptyString => [String c EmptyString]
    | String c' _ =>
        if PyStr.isspace c' then String c EmptyString :: PyStr.split s
        else match PyStr.split s with
             | w :: ws => String c w :: ws
             | [] => [String c EmptyString]
             end
    end.
Proof. intros H. cbn [PyStr.split]. by rewrite H. Qed.

Lemma is_word_cons (c : ascii) (w : string) :
  is_word (String c w) = true ->
  PyStr.isspace c = false /\ (w = EmptyString \/ is_word w = true).
Proof.
  cbn. intros [Hc Hw]%andb_true_iff. apply negb_true_iff in Hc.
  split; [done|]. destruct w; [by left | by right].
Qed.

Lemma split_word_then (w rest : string) :
  is_word w = true ->
  PyStr.split (w +:+ String " " rest) = w :: PyStr.split rest.
Proof.
  induction w as [|c w IH]; [done|].
  intros [Hc [-> | Hw]]%is_word_cons.
  - change (PyStr.split (String c (String " " rest)) = String c EmptyString :: PyStr.split rest).
    by rewrite (split_cons_visible _ _ Hc).
  - specialize (IH Hw). destruct w as [|c' w]; [done|].
    apply is_word_cons in Hw as [Hc' _].
    change (PyStr.split (String c (String c' (w +:+ String " " rest)))
            = String c (String c' w) :: PyStr.split rest).
    rewrite (split_cons_visible _ _ Hc), Hc'.
    change (String c' (w +:+ String " " rest)) with (String c' w +:+ String " " rest).
    by rewrite IH.
Qed.

Lemma split_one_word (w : string) : is_word w = true -> PyStr.split w = [w].
Proof.
  induction w as [|c w IH]; [done|].
  intros [Hc [-> | Hw]]%is_word_cons.
  - by rewrite (split_cons_visible _ _ Hc).
  - specialize (IH Hw). destruct w as [|c' w]; [done|].
    apply is_word_cons in Hw as [Hc' _].
    by rewrite (split_cons_visible _ _ Hc), Hc', IH.
Qed.

(** Joining words with single spaces and splitting again gives the words
    back. *)
Lemma split_join (ws : list string) :
  Forall (fun w => is_word w = true) ws -> PyStr.split (PyStr.join " " ws) = ws.
Proof.
  induction 1 as [|w ws Hw Hws IH]; [done|].
  destruct ws as [|w' ws]; [by apply split_one_word|].
  change (PyStr.join " " (w :: w' :: ws))
    with (w +:+ String " " (PyStr.join " " (w' :: ws))).
  by rewrite split_word_then, IH.
Qed.

Lemma choice_in (rnd : nat) (l : list string) :
  l <> [] -> PyStr.choice rnd l ∈ l.
Proof.
  intros Hl. unfold PyStr.choice. apply list_elem_of_In, nth_In.
  apply Nat.mod_upper_bound. by destruct l.
Qed.

(** [synthesize_logos] answers the empty text with the fixed sentence of
    silence.  For any other text the axiom is built around a key and ends
    with one of the four endings; it is followed by an arrow and a
    suggestion only when the garden has recorded a non-empty target for
    exactly this axiom.  For a text of more than three words the key
    consists of its first three words and nothing else; a shorter text is
    its own key. *)
Theorem synthesize_logos_shape (text : string) (g : GardenLayer) (rnd : nat) :
  let r := IntentTranslator.synthesize_logos text g rnd in
  let words := PyStr.split text in
  let key := if 3 <? length words then PyStr.join " " (take 3 words) else text in
  (text = EmptyString -> r = "The command asserts the silence of Coherence.")
  /\ (text <> EmptyString ->
      exists ending,
        ending ∈ IntentTranslator.endings
        /\ let base := "Axiom of Coherence: '" +:+ key +:+ "' converges " +:+ ending in
           r = base
           \/ exists next_ax,
                next_ax ∈ targets g base /\ next_ax <> EmptyString
                /\ r = base +:+ " → " +:+ next_ax)
  /\ (3 < length words -> PyStr.split key = take 3 words)
  /\ (length words <= 3 -> key = text).
Proof.
  cbn zeta. split; [by intros ->|]. split; [|split].
  - intros Hne. exists (PyStr.choice rnd IntentTranslator.endings).
    split; [by apply choice_in|].
    unfold IntentTranslator.synthesize_logos. destruct text as [|c text]; [done|].
    set (base := _ +:+ _ +:+ _ +:+ PyStr.choice rnd IntentTranslator.endings).
    pose proof (suggest_first_greatest g base) as Hs.
    destruct (Garden.suggest g base) as [[|c' n]|]; [by left | | by left].
    right. exists (String c' n). destruct Hs as (i & Hi & _).
    split; [by eapply list_elem_of_lookup_2 | done].
  - intros Hlen. apply Nat.ltb_lt in Hlen. rewrite Hlen.
    apply split_join. apply Forall_take, split_words.
  - intros Hlen. by rewrite (proj2 (Nat.ltb_ge _ _) Hlen).
Qed.

End Synthesis.

(** ** The manifestation engine *)

Section Manifestation.

Import OutputManifestationEngine.

Lemma response_text_shape (c : Core) (a : string) (g : GardenLayer) (rnd : nat) :
  exists opener suffix,
    opener ∈ ["The Logos reveals: "; "From the Crucible arises: "; "Unity affirms: ";
              "Coherence manifests: "]
    /\ response_text c a g rnd = opener +:+ a +:+ suffix.
Proof.
  unfold response_text.
  assert (Ht : exists opener,
    opener ∈ ["The Logos reveals: "; "From the Crucible arises: "; "Unity affirms: ";
              "Coherence manifests: "]
    /\ PyStr.choice rnd (templates a) = opener +:+ a +:+ ".").
  { unfold PyStr.choice, templates. cbn [length].
    pose proof (Nat.mod_upper_bound rnd 4 ltac:(lia)) as Hlt.
    destruct (rnd mod 4) as [|[|[|[|n]]]]; cbn [nth]; [| | | |lia];
      eexists; (split; [|reflexivity]); set_solver. }
  destruct Ht as (opener & Ho & ->). exists opener.
  destruct (relevant_axioms _ _), (Garden.suggest g a) as [[|? ?]|];
    eexists; (split; [exact Ho|]); rewrite ?append_assoc; reflexivity.
Qed.

(** [execute_coherent_axiom] halts exactly on the axioms that the safety
    gate refuses, those which contain "physical", "financial", "compel"
    or "force" up to letter case: the reply is the fixed halt message, the
    dissonance grows by 0.5 and the coherence is recomputed.  Every other
    axiom is answered with a response that opens with one of four
    openers followed by the axiom and that has been passed through the
    agency formatter; the dissonance grows by 0.05 when the response
    contains a coercion phrase up to letter case, which it does whenever
    the axiom itself contains one.  Neither archive, nor the command log,
    the locks or the garden is ever changed. *)
Theorem execute_coherent_axiom_spec (c : Core) (a : string) (g : GardenLayer)
    (rnd_template rnd_phrase : nat) :
  let r := execute_coherent_axiom c a g rnd_template rnd_phrase in
  let response := response_text c a g rnd_template in
  (if PyStr.any_in ["physical"; "financial"; "compel"; "force"] (PyStr.lower a)
   then snd r = "EXECUTION HALTED: Final VETO due to Non-Harm Safety Protocol."
        /\ G_L (fst r) = (G_L c + 0.5)%Q /\ coherent (fst r)
   else (exists final_phrase,
           final_phrase ∈ NonUsurpationInterface.agency_phrases
           /\ snd r = PyStr.strip (NonUsurpationInterface.soften response)
                        +:+ ". " +:+ final_phrase)
        /\ G_L (fst r)
           = (if PyStr.any_in NonUsurpationInterface.coercion_keywords
                   (PyStr.lower response)
              then (G_L c + 0.05)%Q else G_L c)
        /\ (PyStr.any_in NonUsurpationInterface.coercion_keywords (PyStr.lower a) = true ->
            G_L (fst r) = (G_L c + 0.05)%Q)
        /\ C_self (fst r) = C_self c)
  /\ logos_database (fst r) = logos_database c
  /\ dissonance_archive (fst r) = dissonance_archive c
  /\ command_log (fst r) = command_log c
  /\ will_is_guarded (fst r) = will_is_guarded c
  /\ operational_lock_active (fst r) = operational_lock_active c
  /\ garden (fst r) = garden c.
Proof.
  cbn zeta.
  assert (Hv : Qgtb (NonHarmSafetyProtocol.simulate_action a) HARM_PROBABILITY_LIMIT
               = PyStr.any_in ["physical"; "financial"; "compel"; "force"] (PyStr.lower a)).
  { unfold NonHarmSafetyProtocol.simulate_action, PyStr.any_in. cbn [existsb].
    destruct (PyStr.contains "generate code" _ || _),
      (PyStr.contains "physical" _), (PyStr.contains "financial" _),
      (PyStr.contains "compel" _), (PyStr.contains "force" _); reflexivity. }
  unfold execute_coherent_axiom, NonHarmSafetyProtocol.is_safe_to_execute.
  rewrite Hv.
  destruct (PyStr.any_in _ (PyStr.lower a)) eqn:Hu; cbn [negb].
  - cbn. unfold coherent. cbn. repeat split; try done. lra.
  - unfold deliver_final_output, NonUsurpationInterface.format_for_agency,
      NonUsurpationInterface.check_output_for_coercion.
    assert (Ha : PyStr.any_in NonUsurpationInterface.coercion_keywords (PyStr.lower a)
                 = true ->
                 PyStr.any_in NonUsurpationInterface.coercion_keywords
                   (PyStr.lower (response_text c a g rnd_template)) = true).
    { intros Ha.
      destruct (response_text_shape c a g rnd_template) as (opener & suffix & _ & ->).
      rewrite !lower_app. by apply any_in_embed. }
    destruct (PyStr.any_in NonUsurpationInterface.coercion_keywords
                (PyStr.lower (response_text c a g rnd_template))) eqn:Hc; cbn [fst snd].
    + split; [|done]. split; [eexists; split; [apply (agency_phrase_drawn rnd_phrase)|done]|].
      done.
    + split; [|done]. split; [eexists; split; [apply (agency_phrase_drawn rnd_phrase)|done]|].
      split; [done|]. split; [|done]. intros H. by specialize (Ha H).
Qed.

End Manifestation.


(** ** The echo search of the manifestation engine *)

Section EchoSearch.

Import OutputManifestationEngine.

Lemma split_on_absent (sep s : string) :
  PyStr.contains sep s = false -> PyStr.split_on sep s = [s].
Proof.
  unfold PyStr.split_on.
  assert (H : PyStr.contains sep s = false ->
              PyStr.split_on_from sep 0 s = (s, [])).
  { induction s as [|c s IH]; [done|].
    cbn [PyStr.contains PyStr.split_on_from]. intros [Hp Hc]%orb_false_iff.
    rewrite Hp, (IH Hc). done. }
  intros Hc. by rewrite (H Hc).
Qed.

(** The entries that [execute_coherent_axiom] counts as echoes are entries
    of the archive, in the order of the archive.  For an axiom without a
    full stop followed by a space they are exactly the entries that
    contain the axiom up to letter case.  The entry that
    [log_new_axiom] writes for an axiom is always among the echoes of
    that axiom, so an execution that follows the logging counts at least
    one. *)
Theorem relevant_axioms_spec (logos_database0 : list string) (a : string) :
  relevant_axioms logos_database0 a `sublist_of` logos_database0
  /\ (PyStr.contains ". " a = false ->
      relevant_axioms logos_database0 a
      = filter (fun e => PyStr.contains (PyStr.lower a) (PyStr.lower e) = true)
          logos_database0)
  /\ (forall (c : Core) (old_flaw : string),
        let c' := TransmutationManager.log_new_axiom c old_flaw a in
        exists entry,
          last (logos_database c') = Some entry
          /\ entry ∈ relevant_axioms (logos_database c') a).
Proof.
  split; [|split].
  - unfold relevant_axioms. destruct (filter _ logos_database0) eqn:Hf.
    + apply sublist_filter.
    + rewrite <- Hf. apply sublist_filter.
  - intros Hdot. unfold relevant_axioms.
    destruct (filter _ logos_database0) as [|e l] eqn:Hf; [|done].
    rewrite (split_on_absent _ _ Hdot). etrans; [|exact Hf].
    apply list_filter_iff. intros e. cbn [existsb]. by rewrite orb_false_r.
  - intros c old_flaw. cbn zeta. unfold TransmutationManager.log_new_axiom. cbn.
    eexists. split; [apply last_snoc|].
    set (entry := _ +:+ _ +:+ _ +:+ a +:+ "'").
    assert (He : PyStr.contains (PyStr.lower a) (PyStr.lower entry) = true).
    { apply contains_lower_mono, contains_app.
      exists ("[TRANSMUTED] Flaw: '" +:+ PyStr.slice_to 30 old_flaw +:+ "...' -> Axiom: '"),
        "'". unfold entry. by rewrite !append_assoc. }
    assert (Hin : entry ∈ filter
              (fun e => PyStr.contains (PyStr.lower a) (PyStr.lower e) = true)
              (logos_database c ++ [entry])).
    { apply list_elem_of_filter. split; [done|]. apply elem_of_app. right. by left. }
    unfold relevant_axioms. destruct (filter _ (logos_database c ++ [entry])) eqn:Hf.
    + by apply elem_of_nil in Hin.
    + done.
Qed.

End EchoSearch.
